(** * Yuwell YH-360A [.BYS] log parser: a shallow embedding of
    [parse_bys_file] (src/yuwell_analyzer.py) and the properties of its
    record scanner and timestamp decoder.

    The Python function reads the whole file, searches it for the marker
    [28 46 96 28] with [bytes.find], decodes the 30-byte window at every
    match with [struct.unpack], f-string formatting and
    [datetime.strptime], and moves its cursor 4 bytes past the match.
    The library functions it calls are modelled next to it, each from the
    CPython 3.11 behaviour it stands for. *)

(** The rest of the program is embedded after the parser: the CSV copy
    [parse_bys_file] writes with [csv.DictWriter], the conversion loop
    and the derived metrics of [run_analysis], the five lists
    [generate_html_report] fills its page with, and [main]. Floats are
    the binary64 numbers of [Stdlib.Floats]. What the program prints, the
    text of the page around the lists and [calculate_stats], which only
    prints, are not modelled; the files it writes are taken to be
    writable. *)

From Stdlib Require Import ZArith List String Ascii Bool Lia.
From Stdlib Require Import Strings.Byte.
From Stdlib Require Import Sorted HexadecimalN.
From Stdlib Require Import Floats Permutation.
Import ListNotations.

Local Open Scope string_scope.
Local Open Scope Z_scope.

(* ================================================================= *)
(** ** Python values used by the parser *)

(** [bytes] objects are sequences of 8-bit values; indexing one gives an
    [int] in [range(256)]. *)
Definition bytes := list byte.

Definition byte_int (b : byte) : Z := Z.of_N (Byte.to_N b).

Definition len {A} (l : list A) : Z := Z.of_nat (List.length l).

(** An exception is modelled by [None]; the binding below propagates it
    to the enclosing [try]. *)
Notation "x <- e ;; k" :=
  (match e with Some x => k | None => None end)
  (at level 61, e at next level, right associativity).

Module Py.

(** *** Indexing and slicing *)

(** [l[i]] for [i >= 0]; [None] is [IndexError]. *)
Definition index {A} (l : list A) (i : nat) : option A := nth_error l i.

(** How a slice bound is clamped into [0 .. len]: a negative bound counts
    from the end. *)
Definition clamp (n i : Z) : Z :=
  if i <? 0 then Z.max 0 (i + n) else Z.min i n.

(** [l[a:b]]. *)
Definition slice {A} (l : list A) (a b : Z) : list A :=
  let a' := clamp (len l) a in
  let b' := clamp (len l) b in
  firstn (Z.to_nat (b' - a')) (skipn (Z.to_nat a') l).

(** *** [bytes.find] *)

Fixpoint starts_with (sub s : bytes) : bool :=
  match sub, s with
  | [], _ => true
  | _ :: _, [] => false
  | x :: sub', y :: s' => Byte.eqb x y && starts_with sub' s'
  end.

(** Position of the first occurrence of [sub] in [s], if any. *)
Fixpoint first_occurrence (sub s : bytes) : option nat :=
  if starts_with sub s then Some 0%nat
  else match s with
       | [] => None
       | _ :: s' => option_map S (first_occurrence sub s')
       end.

(** [s.find(sub, start)]: the lowest index [>= start] where [sub] occurs,
    and [-1] when there is none. *)
Definition find (s sub : bytes) (start : Z) : Z :=
  let start' := if start <? 0 then Z.max 0 (start + len s) else start in
  if start' >? len s then -1
  else match first_occurrence sub (skipn (Z.to_nat start') s) with
       | Some k => start' + Z.of_nat k
       | None => -1
       end.

(** *** [struct.unpack] with the formats ['>6H'] and ['>H'] *)

(** Big-endian unsigned 16-bit fields, two bytes each. *)
Fixpoint be16_fields (b : bytes) : list Z :=
  match b with
  | hi :: lo :: rest => (byte_int hi * 256 + byte_int lo) :: be16_fields rest
  | _ => []
  end.

(** [struct.unpack('>' + str(n) + 'H', b)]; a buffer that is not [2n]
    bytes long raises [struct.error]. *)
Definition unpack_H (n : nat) (b : bytes) : option (list Z) :=
  if (List.length b =? 2 * n)%nat then Some (be16_fields b) else None.

(** *** Format specifications ['02d'], ['X'] and ['04X'] *)

Fixpoint upper_hex (d : Hexadecimal.uint) : string :=
  match d with
  | Hexadecimal.Nil => ""
  | Hexadecimal.D0 d => String "0" (upper_hex d)
  | Hexadecimal.D1 d => String "1" (upper_hex d)
  | Hexadecimal.D2 d => String "2" (upper_hex d)
  | Hexadecimal.D3 d => String "3" (upper_hex d)
  | Hexadecimal.D4 d => String "4" (upper_hex d)
  | Hexadecimal.D5 d => String "5" (upper_hex d)
  | Hexadecimal.D6 d => String "6" (upper_hex d)
  | Hexadecimal.D7 d => String "7" (upper_hex d)
  | Hexadecimal.D8 d => String "8" (upper_hex d)
  | Hexadecimal.D9 d => String "9" (upper_hex d)
  | Hexadecimal.Da d => String "A" (upper_hex d)
  | Hexadecimal.Db d => String "B" (upper_hex d)
  | Hexadecimal.Dc d => String "C" (upper_hex d)
  | Hexadecimal.Dd d => String "D" (upper_hex d)
  | Hexadecimal.De d => String "E" (upper_hex d)
  | Hexadecimal.Df d => String "F" (upper_hex d)
  end.

Fixpoint decimal (d : Decimal.uint) : string :=
  match d with
  | Decimal.Nil => ""
  | Decimal.D0 d => String "0" (decimal d)
  | Decimal.D1 d => String "1" (decimal d)
  | Decimal.D2 d => String "2" (decimal d)
  | Decimal.D3 d => String "3" (decimal d)
  | Decimal.D4 d => String "4" (decimal d)
  | Decimal.D5 d => String "5" (decimal d)
  | Decimal.D6 d => String "6" (decimal d)
  | Decimal.D7 d => String "7" (decimal d)
  | Decimal.D8 d => String "8" (decimal d)
  | Decimal.D9 d => String "9" (decimal d)
  end.

Fixpoint zeros (n : nat) : string :=
  match n with
  | O => ""
  | S n' => String "0" (zeros n')
  end.

(** Sign-aware zero padding to a minimum width, as the [0] flag does. *)
Definition zero_pad (width : nat) (negative : bool) (digits : string) : string :=
  let sign := if negative then "-" else "" in
  sign ++ zeros (width - String.length sign - String.length digits) ++ digits.

(** [format(n, '0' + str(width) + 'd')]. *)
Definition format_d (width : nat) (n : Z) : string :=
  zero_pad width (n <? 0) (decimal (N.to_uint (Z.abs_N n))).

(** [format(n, '0' + str(width) + 'X')]; width [0] is the plain ['X']. *)
Definition format_X (width : nat) (n : Z) : string :=
  zero_pad width (n <? 0) (upper_hex (N.to_hex_uint (Z.abs_N n))).

(** *** Regular expressions, as far as [_strptime] uses them

    [re.match] is a backtracking matcher: alternatives are tried left to
    right and the first way of matching the whole pattern wins. [matches]
    lists every way of matching a pattern at the start of a string in that
    order of preference, so [re.match] is the head of the list. *)

Inductive regex :=
| Eps
| Chr (c : ascii)
| Range (lo hi : ascii)
| Digit
| Spaces
| Cat (r1 r2 : regex)
| Alt (r1 r2 : regex)
| Group (name : string) (r : regex).

Definition groupdict := list (string * string).

(** One way of matching: the text matched, the text left, the named
    groups captured. *)
Definition attempt := (string * string * groupdict)%type.

Definition in_range (lo hi c : ascii) : bool :=
  (N_of_ascii lo <=? N_of_ascii c)%N && (N_of_ascii c <=? N_of_ascii hi)%N.

Definition is_digit (c : ascii) : bool := in_range "0" "9" c.

(** [str.isspace] on the code points below 256. *)
Definition is_space (c : ascii) : bool :=
  let n := N_of_ascii c in
  ((9 <=? n) && (n <=? 13) || (28 <=? n) && (n <=? 32)
   || (n =? 133) || (n =? 160))%N.

(** [\s+] is greedy: the longest run first, then the shorter ones. *)
Fixpoint spaces (s : string) : list (string * string) :=
  match s with
  | String c s' =>
      if is_space c
      then (map (fun '(u, r) => (String c u, r)) (spaces s')
              ++ [(String c "", s')])%list
      else []
  | EmptyString => []
  end.

Definition one_char (p : ascii -> bool) (s : string) (g : groupdict)
  : list attempt :=
  match s with
  | String c s' => if p c then [(String c "", s', g)] else []
  | EmptyString => []
  end.

Fixpoint matches (r : regex) (s : string) (g : groupdict) : list attempt :=
  match r with
  | Eps => [("", s, g)]
  | Chr c => one_char (Ascii.eqb c) s g
  | Range lo hi => one_char (in_range lo hi) s g
  | Digit => one_char is_digit s g
  | Spaces => map (fun '(u, s') => (u, s', g)) (spaces s)
  | Cat r1 r2 =>
      flat_map (fun '(u1, s1, g1) =>
                  map (fun '(u2, s2, g2) => ((u1 ++ u2)%string, s2, g2))
                      (matches r2 s1 g1))
               (matches r1 s g)
  | Alt r1 r2 => (matches r1 s g ++ matches r2 s g)%list
  | Group name r1 =>
      map (fun '(u, s', g') => (u, s', (name, u) :: g')) (matches r1 s g)
  end.

Definition re_match (r : regex) (s : string) : option attempt :=
  hd_error (matches r s []).

Fixpoint getitem (d : groupdict) (key : string) : option string :=
  match d with
  | [] => None
  | (k, v) :: d' => if String.eqb k key then Some v else getitem d' key
  end.

(** *** [int] of a decimal string *)

Definition digit_value (c : ascii) : Z := Z.of_N (N_of_ascii c) - 48.

Fixpoint int_digits (acc : Z) (s : string) : option Z :=
  match s with
  | EmptyString => Some acc
  | String c s' =>
      if is_digit c then int_digits (10 * acc + digit_value c) s' else None
  end.

Fixpoint lstrip (s : string) : string :=
  match s with
  | String c s' => if is_space c then lstrip s' else s
  | EmptyString => s
  end.

(** [int(s)] for an unsigned decimal literal, leading blanks ignored;
    [None] is [ValueError]. *)
Definition int (s : string) : option Z :=
  match lstrip s with
  | EmptyString => None
  | t => int_digits 0 t
  end.

(** *** [datetime]: field checks of the constructors *)

Definition MINYEAR := 1.
Definition MAXYEAR := 9999.

Definition _DAYS_IN_MONTH := [-1; 31; 28; 31; 30; 31; 30; 31; 31; 30; 31; 30; 31].

Definition _is_leap (year : Z) : bool :=
  (year mod 4 =? 0) && (negb (year mod 100 =? 0) || (year mod 400 =? 0)).

Definition _days_in_month (year month : Z) : Z :=
  if (month =? 2) && _is_leap year then 29
  else nth (Z.to_nat month) _DAYS_IN_MONTH 0.

Definition between (lo x hi : Z) : bool := (lo <=? x) && (x <=? hi).

(** [None] is the [ValueError] of the failed check. *)
Definition _check_date_fields (year month day : Z) : option (Z * Z * Z) :=
  if negb (between MINYEAR year MAXYEAR) then None
  else if negb (between 1 month 12) then None
  else let dim := _days_in_month year month in
       if negb (between 1 day dim) then None
       else Some (year, month, day).

Definition _check_time_fields (hour minute second : Z) : option (Z * Z * Z) :=
  if negb (between 0 hour 23) then None
  else if negb (between 0 minute 59) then None
  else if negb (between 0 second 59) then None
  else Some (hour, minute, second).

Record datetime := {
  year : Z; month : Z; day : Z; hour : Z; minute : Z; second : Z
}.

(** [datetime(year, month, day, hour, minute, second)]. *)
Definition datetime_new (y m d hh mi ss : Z) : option datetime :=
  match _check_date_fields y m d with
  | Some (y', m', d') =>
      match _check_time_fields hh mi ss with
      | Some (H', M', S') =>
          Some {| year := y'; month := m'; day := d';
                  hour := H'; minute := M'; second := S' |}
      | None => None
      end
  | None => None
  end.

(** *** [_strptime]: the directive table and the parse *)

Definition re_Y := Group "Y" (Cat Digit (Cat Digit (Cat Digit Digit))).
Definition re_m :=
  Group "m" (Alt (Cat (Chr "1") (Range "0" "2"))
            (Alt (Cat (Chr "0") (Range "1" "9"))
                 (Range "1" "9"))).
Definition re_d :=
  Group "d" (Alt (Cat (Chr "3") (Range "0" "1"))
            (Alt (Cat (Range "1" "2") Digit)
            (Alt (Cat (Chr "0") (Range "1" "9"))
            (Alt (Range "1" "9")
                 (Cat (Chr " ") (Range "1" "9")))))).
Definition re_H :=
  Group "H" (Alt (Cat (Chr "2") (Range "0" "3"))
            (Alt (Cat (Range "0" "1") Digit)
                 Digit)).
Definition re_M :=
  Group "M" (Alt (Cat (Range "0" "5") Digit) Digit).
Definition re_S :=
  Group "S" (Alt (Cat (Chr "6") (Range "0" "1"))
            (Alt (Cat (Range "0" "5") Digit)
                 Digit)).

(** The entries of [TimeRE] for the directives of the parser's format. *)
Definition directive (d : ascii) : option regex :=
  if Ascii.eqb d "Y" then Some re_Y
  else if Ascii.eqb d "m" then Some re_m
  else if Ascii.eqb d "d" then Some re_d
  else if Ascii.eqb d "H" then Some re_H
  else if Ascii.eqb d "M" then Some re_M
  else if Ascii.eqb d "S" then Some re_S
  else None.

(** [TimeRE.pattern]: a directive becomes its table entry, a run of
    white space becomes [\s+], any other character stands for itself.
    [in_space] says that the previous character was white space. *)
Fixpoint pattern (in_space : bool) (format : string) : option regex :=
  match format with
  | EmptyString => Some Eps
  | String c rest =>
      if Ascii.eqb c "%" then
        match rest with
        | String d rest' =>
            r <- directive d ;;
            p <- pattern false rest' ;;
            Some (Cat r p)
        | EmptyString => None
        end
      else if is_space c then
        p <- pattern true rest ;;
        Some (if in_space then p else Cat Spaces p)
      else
        p <- pattern false rest ;;
        Some (Cat (Chr c) p)
  end.

(** [_strptime(data_string, format)], down to the six fields the
    [datetime] is made of. *)
Definition _strptime (data_string format : string)
  : option (Z * Z * Z * Z * Z * Z) :=
  format_regex <- pattern false format ;;
  found <- re_match format_regex data_string ;;
  let '(matched, _, found_dict) := found in
  if negb (String.length data_string =? String.length matched)%nat
  then None
  else
    year <- (v <- getitem found_dict "Y" ;; int v) ;;
    month <- (v <- getitem found_dict "m" ;; int v) ;;
    day <- (v <- getitem found_dict "d" ;; int v) ;;
    hour <- (v <- getitem found_dict "H" ;; int v) ;;
    minute <- (v <- getitem found_dict "M" ;; int v) ;;
    second <- (v <- getitem found_dict "S" ;; int v) ;;
    (* the day of the year is computed through [datetime_date] *)
    _ <- _check_date_fields year month day ;;
    Some (year, month, day, hour, minute, second).

(** [datetime.strptime(data_string, format)]. *)
Definition strptime (data_string format : string) : option datetime :=
  match _strptime data_string format with
  | Some (y, m, d, hh, mi, ss) => datetime_new y m d hh mi ss
  | None => None
  end.

End Py.

Import Py.

(* ================================================================= *)
(** ** The parser: [parse_bys_file] *)

(** The dictionary built for every record, with its ten keys. *)
Record record := {
  Offset : string;
  Start_Time : string;
  End_Time : string;
  Duration_min : Z;
  Pressure_Raw : Z;
  Val1 : Z;
  Val2 : Z;
  Val3 : Z;
  Val4 : Z;
  Spacer : string
}.

Definition magic : bytes := [x28; x46; x96; x28].

Definition ts_format : string := "%Y-%m-%d %H:%M:%S".

(** The f-string of a timestamp:
    [20{r[0]:02d}-{r[1]:02d}-{r[2]:02d} {r[3]:02d}:{r[4]:02d}:{r[5]:02d}]. *)
Definition ts_fstring (ts_raw : bytes) : option string :=
  r0 <- index ts_raw 0 ;;
  r1 <- index ts_raw 1 ;;
  r2 <- index ts_raw 2 ;;
  r3 <- index ts_raw 3 ;;
  r4 <- index ts_raw 4 ;;
  r5 <- index ts_raw 5 ;;
  Some ("20" ++ format_d 2 (byte_int r0) ++ "-" ++ format_d 2 (byte_int r1)
          ++ "-" ++ format_d 2 (byte_int r2) ++ " " ++ format_d 2 (byte_int r3)
          ++ ":" ++ format_d 2 (byte_int r4) ++ ":" ++ format_d 2 (byte_int r5))%string.

(** One [try: ... except: ts_str = "Invalid Date"] block: the string is
    formatted and checked with [strptime]; whatever is raised inside is
    caught by the bare [except]. *)
Definition decode_timestamp (ts_raw : bytes) : string :=
  match (ts_str <- ts_fstring ts_raw ;;
         _ <- strptime ts_str ts_format ;;
         Some ts_str) with
  | Some ts_str => ts_str
  | None => "Invalid Date"
  end.

(** The fields of the window found at [idx]; [None] when one of the
    [struct.unpack] calls or tuple accesses raises, which the [except
    Exception] around the loop would catch. *)
Definition decode_record (idx : Z) (record_bytes : bytes) : option record :=
  let data_raw := slice record_bytes 4 16 in
  data_values <- unpack_H 6 data_raw ;;
  let ts1_raw := slice record_bytes 16 22 in
  let ts1_str := decode_timestamp ts1_raw in
  let ts2_raw := slice record_bytes 22 28 in
  let ts2_str := decode_timestamp ts2_raw in
  spacer <- (t <- unpack_H 1 (slice record_bytes 28 30) ;; index t 0) ;;
  duration <- index data_values 5 ;;
  pressure_raw <- index data_values 3 ;;
  v0 <- index data_values 0 ;;
  v1 <- index data_values 1 ;;
  v2 <- index data_values 2 ;;
  v4 <- index data_values 4 ;;
  Some {| Offset := "0x" ++ format_X 0 idx;
          Start_Time := ts1_str;
          End_Time := ts2_str;
          Duration_min := duration;
          Pressure_Raw := pressure_raw;
          Val1 := v0;
          Val2 := v1;
          Val3 := v2;
          Val4 := v4;
          Spacer := "0x" ++ format_X 4 spacer |}.

(** The variables the [while True] loop updates. *)
Record state := { offset : Z; records : list record }.

Inductive outcome :=
| Continue (st : state)
| Break
| Raise.

(** One pass through the loop body. *)
Definition loop_body (content : bytes) (st : state) : outcome :=
  let idx := find content magic (offset st) in
  if idx =? -1 then Break
  else if idx + 30 >? len content then Break
  else
    let record_bytes := slice content idx (idx + 30) in
    match decode_record idx record_bytes with
    | None => Raise
    | Some record =>
        Continue {| offset := idx + 4;
                    records := (records st ++ [record])%list |}
    end.

(** How the loop ends: it falls out with the records collected, an
    exception escapes it, or the fuel of the model runs out. *)
Inductive loop_result :=
| Returned (rs : list record)
| Raised
| OutOfFuel.

Fixpoint while_true (fuel : nat) (content : bytes) (st : state) : loop_result :=
  match fuel with
  | O => OutOfFuel
  | S fuel' =>
      match loop_body content st with
      | Continue st' => while_true fuel' content st'
      | Break => Returned (records st)
      | Raise => Raised
      end
  end.

Definition initial : state := {| offset := 0; records := [] |}.

(** Every pass moves the cursor at least 4 bytes on and stays inside the
    buffer, so [length content + 1] passes are never used up. *)
Definition run (content : bytes) : loop_result :=
  while_true (S (List.length content)) content initial.

(** The scanner: lines 31 to 108 on the bytes read from the file. An
    exception ends in the [except Exception] clause, which returns [[]]. *)
Definition scan (content : bytes) : list record :=
  match run content with
  | Returned rs => rs
  | Raised => []
  | OutOfFuel => []
  end.

(** [parse_bys_file(filename)]; [None] stands for a path that does not
    exist, [Some content] for the bytes of the file. Printing and the
    optional CSV copy do not change the value returned. *)
Definition parse_bys_file (file : option bytes) : list record :=
  match file with
  | None => []
  | Some content => scan content
  end.

(* ================================================================= *)
(** ** The record as the report layer reads it *)

Inductive TimestampResult :=
| Valid (year month day hour minute second : Z)
| Invalid.

(** A time string is read back as [generate_report] does: the literal
    ["Invalid Date"] is skipped, anything else goes through [strptime]. *)
Definition timestamp_result (ts_str : string) : TimestampResult :=
  if String.eqb ts_str "Invalid Date" then Invalid
  else match strptime ts_str ts_format with
       | Some dt => Valid (year dt) (month dt) (day dt)
                          (hour dt) (minute dt) (second dt)
       | None => Invalid
       end.

Fixpoint hex_uint (s : string) : option Hexadecimal.uint :=
  match s with
  | EmptyString => Some Hexadecimal.Nil
  | String c s' =>
      d <- hex_uint s' ;;
      if Ascii.eqb c "0" then Some (Hexadecimal.D0 d)
      else if Ascii.eqb c "1" then Some (Hexadecimal.D1 d)
      else if Ascii.eqb c "2" then Some (Hexadecimal.D2 d)
      else if Ascii.eqb c "3" then Some (Hexadecimal.D3 d)
      else if Ascii.eqb c "4" then Some (Hexadecimal.D4 d)
      else if Ascii.eqb c "5" then Some (Hexadecimal.D5 d)
      else if Ascii.eqb c "6" then Some (Hexadecimal.D6 d)
      else if Ascii.eqb c "7" then Some (Hexadecimal.D7 d)
      else if Ascii.eqb c "8" then Some (Hexadecimal.D8 d)
      else if Ascii.eqb c "9" then Some (Hexadecimal.D9 d)
      else if Ascii.eqb c "A" then Some (Hexadecimal.Da d)
      else if Ascii.eqb c "B" then Some (Hexadecimal.Db d)
      else if Ascii.eqb c "C" then Some (Hexadecimal.Dc d)
      else if Ascii.eqb c "D" then Some (Hexadecimal.Dd d)
      else if Ascii.eqb c "E" then Some (Hexadecimal.De d)
      else if Ascii.eqb c "F" then Some (Hexadecimal.Df d)
      else None
  end.

(** The number a ["0x..."] string stands for, [int(s, 16)]. *)
Definition hex_int (s : string) : option Z :=
  match s with
  | String "0" (String "x" h) =>
      match h with
      | EmptyString => None
      | _ => d <- hex_uint h ;; Some (Z.of_N (N.of_hex_uint d))
      end
  | _ => None
  end.

(** The byte offset of a record's marker. *)
Definition offset_of (r : record) : option Z := hex_int (Offset r).

(** The six data values in the order of the file. *)
Definition values_of (r : record) : list Z :=
  [Val1 r; Val2 r; Val3 r; Pressure_Raw r; Val4 r; Duration_min r].

Definition spacer_of (r : record) : option Z := hex_int (Spacer r).

(** A marker occurrence: the four bytes at [i] are the magic. *)
Definition marker_at (content : bytes) (i : Z) : Prop :=
  0 <= i /\ firstn 4 (skipn (Z.to_nat i) content) = magic.

(** A byte under the format specification [02d]. *)
Definition two_digits (b : byte) : string := format_d 2 (byte_int b).

(** The regular expression [TimeRE.pattern] builds for [ts_format]. *)
Definition ts_regex : regex :=
  Cat re_Y (Cat (Chr "-") (Cat re_m (Cat (Chr "-") (Cat re_d (Cat Spaces
  (Cat re_H (Cat (Chr ":") (Cat re_M (Cat (Chr ":") (Cat re_S Eps)))))))))).

(** The f-string of six bytes, written out. *)
Definition ts_string (b0 b1 b2 b3 b4 b5 : byte) : string :=
  String "2" (String "0" (two_digits b0 ++ String "-" (two_digits b1 ++
  String "-" (two_digits b2 ++ String " " (two_digits b3 ++
  String ":" (two_digits b4 ++ String ":" (two_digits b5))))))).

(** What [_strptime] returns on such a string, by the values of the
    bytes alone. *)
Definition parsed_fields (b0 b1 b2 b3 b4 b5 : byte)
  : option (Z * Z * Z * Z * Z * Z) :=
  if (byte_int b0 <? 100) && between 1 (byte_int b1) 12
     && between 1 (byte_int b2) 31 && (byte_int b3 <=? 23)
     && (byte_int b4 <=? 59) && (byte_int b5 <=? 61)
  then _ <- _check_date_fields (2000 + byte_int b0) (byte_int b1) (byte_int b2) ;;
       Some (2000 + byte_int b0, byte_int b1, byte_int b2,
             byte_int b3, byte_int b4, byte_int b5)
  else None.

(** Calendar validity, as the specification words it. Gregorian rule:
    every fourth year, except the centuries that are not multiples of
    400. *)
Definition gregorian_leap (y : Z) : bool :=
  (y mod 4 =? 0) && negb (y mod 100 =? 0) || (y mod 400 =? 0).

Definition days_of_month (y m : Z) : Z :=
  match m with
  | 1 | 3 | 5 | 7 | 8 | 10 | 12 => 31
  | 4 | 6 | 9 | 11 => 30
  | 2 => if gregorian_leap y then 29 else 28
  | _ => 0
  end.

(** Month in 1..12, day valid for the month of year [2000 + yy], hour in
    0..23, minute and second in 0..59. *)
Definition valid_components (yy mm dd hh mi ss : Z) : bool :=
  between 1 mm 12 && between 1 dd (days_of_month (2000 + yy) mm)
  && between 0 hh 23 && between 0 mi 59 && between 0 ss 59.

Ltac bool_to_Z :=
  unfold between in *;
  repeat match goal with
         | H : _ && _ = true |- _ => apply andb_true_iff in H; destruct H
         | H : _ && _ = false |- _ => apply andb_false_iff in H; destruct H
         | H : negb _ = true |- _ => apply negb_true_iff in H
         | H : negb _ = false |- _ => apply negb_false_iff in H
         | H : (_ <=? _) = true |- _ => apply Z.leb_le in H
         | H : (_ <=? _) = false |- _ => apply Z.leb_gt in H
         | H : (_ <? _) = true |- _ => apply Z.ltb_lt in H
         | H : (_ <? _) = false |- _ => apply Z.ltb_ge in H
         end.

(** The big-endian unsigned 16-bit integer held in bytes [i] and [i+1]
    of [w]: [256 * w[i] + w[i+1]]. *)
Definition be16 (w : bytes) (i : nat) : Z :=
  256 * byte_int (nth i w x00) + byte_int (nth (S i) w x00).

(** The 30 bytes the loop cuts out at [idx]. *)
Definition window (content : bytes) (idx : Z) : bytes :=
  slice content idx (idx + 30).

(** The states the loop passes through on [content]. *)
Inductive reachable (content : bytes) : state -> Prop :=
| reach_initial : reachable content initial
| reach_continue st st' :
    reachable content st ->
    loop_body content st = Continue st' ->
    reachable content st'.

(** [r] is the record of a full window that starts with the marker at
    [idx]. *)
Definition decodes (content : bytes) (idx : Z) (r : record) : Prop :=
  marker_at content idx /\ idx + 30 <= len content
  /\ decode_record idx (window content idx) = Some r.

(** What holds of every state the loop reaches, [idxs] being the
    offsets matched so far: the records are those of the windows at
    [idxs], in increasing order and at least 4 bytes behind the cursor;
    a marker occurrence behind the cursor was matched unless it starts
    on the last byte of a matched marker; past the first iteration a
    whole window lies behind the cursor. *)
Record scan_inv (content : bytes) (st : state) (idxs : list Z) : Prop := {
  inv_records : Forall2 (decodes content) idxs (records st);
  inv_sorted : StronglySorted Z.lt idxs;
  inv_cursor : 0 <= offset st;
  inv_behind : forall m, In m idxs -> m + 4 <= offset st;
  inv_covered : forall j, marker_at content j -> j < offset st ->
                          In j idxs \/ In (j - 3) idxs;
  inv_room : offset st = 0 \/ offset st + 26 <= len content
}.

(** Sample data: a window with the fields 1, 2, 3, 4, 5, 256, the start
    time 2024-01-15 08:30:00, the end time 30 February 2024 and the
    spacer ABCD; and a window whose two timestamps are all zero bytes. *)
Definition sample_window : bytes :=
  (magic ++ [x00; x01; x00; x02; x00; x03; x00; x04; x00; x05; x01; x00]
         ++ [x18; x01; x0f; x08; x1e; x00] ++ [x18; x02; x1e; x08; x1e; x00]
         ++ [xab; xcd])%list.

Definition blank_window : bytes := (magic ++ repeat x00 26)%list.

(** What [sample_window] decodes to at offset 0. *)
Definition sample_record : record :=
  {| Offset := "0x0";
     Start_Time := "2024-01-15 08:30:00";
     End_Time := "Invalid Date";
     Duration_min := 256;
     Pressure_Raw := 4;
     Val1 := 1;
     Val2 := 2;
     Val3 := 3;
     Val4 := 5;
     Spacer := "0xABCD" |}.

(** Three marker occurrences, at 0, 3 and 7: the marker ends with the
    byte it starts with, so the second one starts on the last byte of
    the first; 30 zero bytes follow. *)
Definition chained_markers : bytes :=
  ([x28; x46; x96] ++ magic ++ magic ++ repeat x00 30)%list.

(* ================================================================= *)
(** ** The CSV copy: [csv.DictWriter] on the records *)

Module Csv.

Definition delimiter : ascii := ",".
Definition quotechar : ascii := "034".
Definition lineterminator : string := String "013" (String "010" "").

(** The characters that make the writer quote a field under
    [QUOTE_MINIMAL]: the delimiter, the quote character and the
    characters of the line terminator. *)
Definition special (c : ascii) : bool :=
  Ascii.eqb c delimiter || Ascii.eqb c quotechar
  || Ascii.eqb c "013" || Ascii.eqb c "010".

Fixpoint has_special (s : string) : bool :=
  match s with
  | EmptyString => false
  | String c s' => special c || has_special s'
  end.

(** With [doublequote] every quote character of the field is doubled. *)
Fixpoint double_quotes (s : string) : string :=
  match s with
  | EmptyString => EmptyString
  | String c s' =>
      if Ascii.eqb c quotechar
      then String quotechar (String quotechar (double_quotes s'))
      else String c (double_quotes s')
  end.

Definition field (s : string) : string :=
  if has_special s
  then String quotechar (double_quotes s ++ String quotechar EmptyString)
  else s.

(** [writer.writerow(fields)]; a row made of one empty field is written
    as a pair of quotes. *)
Definition writerow (fields : list string) : string :=
  match fields with
  | [EmptyString] => String quotechar (String quotechar lineterminator)
  | _ => String.concat (String delimiter EmptyString) (map field fields)
           ++ lineterminator
  end.

End Csv.

(** [str(n)] of an [int]. *)
Definition str (n : Z) : string := format_d 0 n.

(** [records[0].keys()]: the keys in the order the dictionary was
    written in. *)
Definition keys : list string :=
  ["Offset"; "Start Time"; "End Time"; "Duration (min)"; "Pressure Raw";
   "Val1"; "Val2"; "Val3"; "Val4"; "Spacer"].

(** [DictWriter._dict_to_list]: the values of a record in the order of
    the field names; the writer puts the numbers through [str]. *)
Definition _dict_to_list (r : record) : list string :=
  [Offset r; Start_Time r; End_Time r; str (Duration_min r);
   str (Pressure_Raw r); str (Val1 r); str (Val2 r); str (Val3 r);
   str (Val4 r); Spacer r].

(** What [writeheader] and [writerows] put into the file. *)
Definition csv_text (records : list record) : string :=
  Csv.writerow keys
  ++ String.concat EmptyString
       (map (fun r => Csv.writerow (_dict_to_list r)) records).

(** Lines 100 to 106: the copy is written when a file name was given and
    there is a record; the result is the name and the text. *)
Definition csv_copy (output_csv : string) (records : list record)
  : option (string * string) :=
  match output_csv, records with
  | EmptyString, _ => None
  | _, [] => None
  | _, _ => Some (output_csv, csv_text records)
  end.

(* ================================================================= *)
(** ** Floating-point numbers and exceptions of the analysis *)

Inductive exn := ValueError | OverflowError | ZeroDivisionError.

Inductive result (A : Type) :=
| Ok (a : A)
| Exn (e : exn).

Arguments Ok {A} a.
Arguments Exn {A} e.

Notation "x <-- e ;; k" :=
  (match e with Ok x => k | Exn err => Exn err end)
  (at level 61, e at next level, right associativity).

(** [float(n)] of an [int]: the nearest double, ties to even;
    [OverflowError] when that is beyond the largest one. *)
Definition float_of_int (n : Z) : result float :=
  let x := SF2Prim (binary_normalize prec emax n 0 false) in
  if PrimFloat.is_infinity x then Exn OverflowError else Ok x.

(** [x / y] on floats. *)
Definition truediv (x y : float) : result float :=
  if PrimFloat.eqb y 0 then Exn ZeroDivisionError else Ok (x / y)%float.

(** Tuples of numbers compare by their first difference. *)
Fixpoint tuple_lt (x y : list Z) : bool :=
  match x, y with
  | [], [] => false
  | [], _ :: _ => true
  | _ :: _, [] => false
  | u :: x', v :: y' => if u =? v then tuple_lt x' y' else u <? v
  end.

(** [datetime.__lt__]: the fields compared as tuples. *)
Definition datetime_lt (a b : datetime) : bool :=
  tuple_lt [year a; month a; day a; hour a; minute a; second a]
           [year b; month b; day b; hour b; minute b; second b].

(** [dt.strftime('%Y-%m-%d')]: the year in decimal, month and day on
    two digits. *)
Definition strftime_date (dt : datetime) : string :=
  str (year dt) ++ "-" ++ format_d 2 (month dt) ++ "-" ++ format_d 2 (day dt).

(* ================================================================= *)
(** ** The analysis: [run_analysis] *)

Module Item.

(** The dictionary built for every record kept. *)
Record item := {
  Start_Time : datetime;
  Duration : float;
  Pressure : float;
  Val1 : float;
  Val2 : float;
  Val3 : float;
  Val4 : float
}.

End Item.

(** The dictionary display of lines 317 to 325, its values evaluated in
    the order written. *)
Definition make_item (r : record) : result Item.item :=
  start <-- match strptime (Start_Time r) ts_format with
            | Some dt => Ok dt
            | None => Exn ValueError
            end ;;
  duration <-- float_of_int (Duration_min r) ;;
  raw <-- float_of_int (Pressure_Raw r) ;;
  pressure <-- truediv raw 1000 ;;
  v1 <-- float_of_int (Val1 r) ;;
  v2 <-- float_of_int (Val2 r) ;;
  v3 <-- float_of_int (Val3 r) ;;
  v4 <-- float_of_int (Val4 r) ;;
  Ok {| Item.Start_Time := start;
        Item.Duration := duration;
        Item.Pressure := pressure;
        Item.Val1 := v1;
        Item.Val2 := v2;
        Item.Val3 := v3;
        Item.Val4 := v4 |}.

(** The loop of lines 313 to 328 over the records that are left, [data]
    being the list built so far: a [ValueError] skips the record, any
    other exception leaves the function. *)
Fixpoint convert (records : list record) (data : list Item.item)
  : result (list Item.item) :=
  match records with
  | [] => Ok data
  | r :: rest =>
      if String.eqb (Start_Time r) "Invalid Date" then convert rest data
      else match make_item r with
           | Ok it => convert rest (data ++ [it])
           | Exn ValueError => convert rest data
           | Exn e => Exn e
           end
  end.

(** Lines 340 to 344. *)
Fixpoint ahi_vals (data : list Item.item) (acc : list float)
  : result (list float) :=
  match data with
  | [] => Ok acc
  | d :: rest =>
      hours <-- truediv (Item.Duration d) 60 ;;
      if (0.5 <? hours)%float
      then v <-- truediv (Item.Val3 d) hours ;; ahi_vals rest (acc ++ [v])
      else ahi_vals rest acc
  end.

(** Line 348; the [int] 30 is compared by value. *)
Fixpoint leak_vals (data : list Item.item) : result (list float) :=
  match data with
  | [] => Ok []
  | d :: rest =>
      if (30 <? Item.Duration d)%float
      then v <-- truediv (Item.Val2 d) 100 ;;
           vs <-- leak_vals rest ;;
           Ok (v :: vs)
      else leak_vals rest
  end.

(** [run_analysis(records)]: the list returned. The calls of
    [calculate_stats], which prints, are left out. *)
Definition run_analysis (records : list record) : result (list Item.item) :=
  data <-- convert records [] ;;
  _ <-- ahi_vals data [] ;;
  _ <-- leak_vals data ;;
  Ok data.

(* ================================================================= *)
(** ** The report: [generate_html_report] *)

(** [list.sort(key=...)] is stable and compares keys with [<] alone: an
    element goes before the first one that is not smaller. *)
Fixpoint insert_by_start (x : Item.item) (l : list Item.item)
  : list Item.item :=
  match l with
  | [] => [x]
  | y :: l' =>
      if datetime_lt (Item.Start_Time y) (Item.Start_Time x)
      then y :: insert_by_start x l'
      else x :: l
  end.

Fixpoint sort_by_start (data : list Item.item) : list Item.item :=
  match data with
  | [] => []
  | x :: rest => insert_by_start x (sort_by_start rest)
  end.

(** A chart value is a [float] or the [int] the code appends. *)
Inductive number :=
| Int (n : Z)
| Float (x : float).

(** The five lists the page is filled with. *)
Record charts := {
  dates : list string;
  durations : list float;
  pressures : list float;
  ahi : list number;
  leak : list float
}.

(** Lines 148 to 154. *)
Fixpoint ahi_series (data : list Item.item) : result (list number) :=
  match data with
  | [] => Ok []
  | d :: rest =>
      hours <-- truediv (Item.Duration d) 60 ;;
      v <-- (if (0.5 <? hours)%float
             then q <-- truediv (Item.Val3 d) hours ;; Ok (Float q)
             else Ok (Int 0)) ;;
      vs <-- ahi_series rest ;;
      Ok (v :: vs)
  end.

(** Lines 157 to 159. *)
Fixpoint leak_series (data : list Item.item) : result (list float) :=
  match data with
  | [] => Ok []
  | d :: rest =>
      v <-- truediv (Item.Val2 d) 100 ;;
      vs <-- leak_series rest ;;
      Ok (v :: vs)
  end.

(** [generate_html_report(data)]: the lists that fill the page template,
    computed from [data] sorted by start time. *)
Definition generate_html_report (data : list Item.item) : result charts :=
  let data := sort_by_start data in
  let dates := map (fun d => strftime_date (Item.Start_Time d)) data in
  let durations := map Item.Duration data in
  let pressures := map Item.Pressure data in
  ahi <-- ahi_series data ;;
  leak <-- leak_series data ;;
  Ok {| dates := dates; durations := durations; pressures := pressures;
        ahi := ahi; leak := leak |}.

(* ================================================================= *)
(** ** The entry point: [main] *)

(** The files a run leaves behind: the CSV copy and the report, each
    with its name. *)
Record written := {
  csv_file : option (string * string);
  html_file : option (string * charts)
}.

(** [main()] on the input file ([None]: no such path), with the values
    of [--csv] and [--html]. *)
Definition main (input_file : option bytes) (csv html : string)
  : result written :=
  let records := parse_bys_file input_file in
  let copy := csv_copy csv records in
  match records with
  | [] => Ok {| csv_file := copy; html_file := None |}
  | _ =>
      data <-- run_analysis records ;;
      match data with
      | [] => Ok {| csv_file := copy; html_file := None |}
      | _ =>
          page <-- generate_html_report data ;;
          Ok {| csv_file := copy; html_file := Some (html, page) |}
      end
  end.

(** A second sample window: start time 2023-12-31 23:59:59, duration 31,
    raw pressure 4012. *)
Definition second_window : bytes :=
  (magic ++ [x00; x01; x00; x02; x00; x03; x0f; xac; x00; x05; x00; x1f]
         ++ [x17; x0c; x1f; x17; x3b; x3b] ++ [x18; x02; x1e; x08; x1e; x00]
         ++ [x00; x0d])%list.

(** A time string the parser formatted from six bytes and [strptime]
    accepted. *)
Definition formatted_time (s : string) : Prop :=
  exists b0 b1 b2 b3 b4 b5 : byte,
    s = ts_string b0 b1 b2 b3 b4 b5
    /\ byte_int b0 < 100
    /\ valid_components (byte_int b0) (byte_int b1) (byte_int b2)
                        (byte_int b3) (byte_int b4) (byte_int b5) = true.

(** Offsets at least 4 bytes apart, in increasing order. *)
Definition spaced (idxs : list Z) : Prop :=
  StronglySorted (fun a b => a + 4 <= b) idxs.

(** The records [run_analysis] does not skip at line 315. *)
Definition has_start (r : record) : bool :=
  negb (String.eqb (Start_Time r) "Invalid Date").


(** What the analysis needs of a 16-bit value [n]: [float(n)] exists,
    and its two tests on a duration, [n / 60.0 > 0.5] and [n > 30], say
    the same as [30 < n] on the integer. *)
Definition uint16_float_check (n : Z) : bool :=
  match float_of_int n with
  | Ok x => Bool.eqb (0.5 <? x / 60)%float (30 <? n)
            && Bool.eqb (30 <? x)%float (30 <? n)
  | Exn _ => false
  end.

(** [d] is the item of [r], a record with a start time the parser
    formatted and a duration on which the tests of the analysis agree
    with the integer. *)
Definition item_of (r : record) (d : Item.item) : Prop :=
  make_item r = Ok d
  /\ formatted_time (Start_Time r)
  /\ (0.5 <? Item.Duration d / 60)%float = (30 <? Duration_min r)
  /\ (30 <? Item.Duration d)%float = (30 <? Duration_min r).

(** [p] on the [count] integers from [n] on. *)
Fixpoint all_from (count : nat) (n : Z) (p : Z -> bool) : bool :=
  match count with
  | O => true
  | S k => p n && all_from k (n + 1) p
  end.

(** [a] does not start after [b]. *)
Definition not_after (a b : Item.item) : Prop :=
  datetime_lt (Item.Start_Time b) (Item.Start_Time a) = false.

(** The items that start at [k]: neither time is before the other. *)
Definition starts_at (k : datetime) (d : Item.item) : bool :=
  negb (datetime_lt k (Item.Start_Time d))
  && negb (datetime_lt (Item.Start_Time d) k).

(** The AHI bar of an item. *)
Definition ahi_bar (d : Item.item) : number :=
  if (0.5 <? Item.Duration d / 60)%float
  then Float (Item.Val3 d / (Item.Duration d / 60))
  else Int 0.


(** [s.split(sep)] for a separator of one character. *)
Fixpoint split (sep : ascii) (s : string) : list string :=
  match s with
  | EmptyString => [EmptyString]
  | String c s' =>
      if Ascii.eqb c sep then EmptyString :: split sep s'
      else match split sep s' with
           | w :: ws => String c w :: ws
           | [] => [String c EmptyString]
           end
  end.

(** A line of the CSV copy with its fields as they are, no quotes. *)
Definition plain_line (fields : list string) : string :=
  String.concat "," fields ++ Csv.lineterminator.

(* ================================================================= *)
(** ** Timestamps: what [strptime] makes of the formatted string *)

Section Timestamps.

Lemma pattern_ts_format : pattern false ts_format = Some ts_regex.
Proof. reflexivity. Qed.

Lemma string_app_assoc (a b c : string) :
  ((a ++ b) ++ c = a ++ (b ++ c))%string.
Proof. induction a as [|x a IH]; simpl; [reflexivity | now rewrite IH]. Qed.

Lemma string_app_nil_r (a : string) : (a ++ "" = a)%string.
Proof. induction a as [|x a IH]; simpl; [reflexivity | now rewrite IH]. Qed.

Lemma string_length_app (a b : string) :
  String.length (a ++ b) = (String.length a + String.length b)%nat.
Proof. induction a as [|x a IH]; simpl; [reflexivity | now rewrite IH]. Qed.

(** Concatenation of patterns is associative, attempt by attempt. *)
Lemma matches_Cat_assoc (r1 r2 r3 : regex) (s : string) (g : groupdict) :
  matches (Cat r1 (Cat r2 r3)) s g = matches (Cat (Cat r1 r2) r3) s g.
Proof.
  simpl.
  induction (matches r1 s g) as [|[[u1 s1] g1] l1 IH]; simpl; [reflexivity|].
  rewrite flat_map_app, <- IH. f_equal. clear IH.
  induction (matches r2 s1 g1) as [|[[u2 s2] g2] l2 IH2]; simpl; [reflexivity|].
  rewrite map_app, IH2. f_equal.
  rewrite map_map. apply map_ext.
  intros [[u3 s3] g3]. now rewrite string_app_assoc.
Qed.

(** When the first part has a single way of matching up to its
    separator, the rest of the pattern goes on from there. *)
Lemma matches_Cat_single (r1 r2 : regex) (s : string) (g : groupdict)
      (u s1 : string) (g1 : groupdict) :
  matches r1 s g = [(u, s1, g1)] ->
  matches (Cat r1 r2) s g =
  map (fun '(u2, s2, g2) => ((u ++ u2)%string, s2, g2)) (matches r2 s1 g1).
Proof. intros H. simpl. rewrite H. simpl. now rewrite app_nil_r. Qed.

Lemma matches_Cat_none (r1 r2 : regex) (s : string) (g : groupdict) :
  matches r1 s g = [] -> matches (Cat r1 r2) s g = [].
Proof. intros H. simpl. now rewrite H. Qed.

(** *** Field by field, over the 256 values of a byte *)

Lemma field_Y (b : byte) (rest : string) (g : groupdict) :
  matches (Cat re_Y (Chr "-"))
          (String "2" (String "0" (two_digits b ++ String "-" rest))) g =
  if byte_int b <? 100
  then [(String "2" (String "0" (two_digits b ++ "-")), rest,
         ("Y", String "2" (String "0" (two_digits b))) :: g)]
  else [].
Proof. destruct b; reflexivity. Qed.

Lemma field_m (b : byte) (rest : string) (g : groupdict) :
  matches (Cat re_m (Chr "-")) (two_digits b ++ String "-" rest) g =
  if between 1 (byte_int b) 12
  then [((two_digits b ++ "-")%string, rest, ("m", two_digits b) :: g)]
  else [].
Proof. destruct b; reflexivity. Qed.

Lemma field_d (b : byte) (c : ascii) (rest : string) (g : groupdict) :
  is_space c = false ->
  matches (Cat re_d Spaces) (two_digits b ++ String " " (String c rest)) g =
  if between 1 (byte_int b) 31
  then [((two_digits b ++ " ")%string, String c rest, ("d", two_digits b) :: g)]
  else [].
Proof. intros Hc. destruct b; cbn; rewrite ?Hc; reflexivity. Qed.

Lemma field_H (b : byte) (rest : string) (g : groupdict) :
  matches (Cat re_H (Chr ":")) (two_digits b ++ String ":" rest) g =
  if byte_int b <=? 23
  then [((two_digits b ++ ":")%string, rest, ("H", two_digits b) :: g)]
  else [].
Proof. destruct b; reflexivity. Qed.

Lemma field_M (b : byte) (rest : string) (g : groupdict) :
  matches (Cat re_M (Chr ":")) (two_digits b ++ String ":" rest) g =
  if byte_int b <=? 59
  then [((two_digits b ++ ":")%string, rest, ("M", two_digits b) :: g)]
  else [].
Proof. destruct b; reflexivity. Qed.

(** The seconds end the string. The pattern takes [60] and [61] too; of
    a larger value it matches one or two digits and leaves the rest. *)
Lemma field_S (b : byte) (g : groupdict) :
  exists u r,
    hd_error (matches (Cat re_S Eps) (two_digits b) g) = Some (u, r, ("S", u) :: g)
    /\ two_digits b = (u ++ r)%string
    /\ (if byte_int b <=? 61 then r = "" else r <> "").
Proof.
  destruct b; cbn; do 2 eexists; (split; [reflexivity|]);
    (split; [reflexivity|]); first [reflexivity | discriminate].
Qed.

Lemma two_digits_head (b : byte) :
  exists c t, two_digits b = String c t /\ is_space c = false.
Proof. destruct b; cbn; do 2 eexists; split; reflexivity. Qed.

Lemma two_digits_length (b : byte) :
  byte_int b < 100 -> String.length (two_digits b) = 2%nat.
Proof. destruct b; cbn; intros H; first [reflexivity | discriminate H]. Qed.

Lemma int_two_digits (b : byte) : int (two_digits b) = Some (byte_int b).
Proof. destruct b; reflexivity. Qed.

Lemma int_year (b : byte) :
  byte_int b < 100 ->
  int (String "2" (String "0" (two_digits b))) = Some (2000 + byte_int b).
Proof. destruct b; cbn; intros H; first [reflexivity | discriminate H]. Qed.

(** *** The whole string *)

Lemma ts_fstring_six (b0 b1 b2 b3 b4 b5 : byte) :
  ts_fstring [b0; b1; b2; b3; b4; b5] = Some (ts_string b0 b1 b2 b3 b4 b5).
Proof. reflexivity. Qed.

Lemma matches_Cat_step (r1 r2 : regex) (s : string) (g : groupdict)
      (cond : bool) (u s1 : string) (g1 : groupdict) :
  matches r1 s g = (if cond then [(u, s1, g1)] else []) ->
  matches (Cat r1 r2) s g =
  if cond
  then map (fun '(u2, s2, g2) => ((u ++ u2)%string, s2, g2)) (matches r2 s1 g1)
  else [].
Proof.
  destruct cond; intros H.
  - now apply matches_Cat_single.
  - now apply matches_Cat_none.
Qed.

Lemma field_d_then (b b' : byte) (rest : string) (g : groupdict) :
  matches (Cat re_d Spaces)
          (two_digits b ++ String " " (two_digits b' ++ rest)) g =
  if between 1 (byte_int b) 31
  then [((two_digits b ++ " ")%string, (two_digits b' ++ rest)%string,
         ("d", two_digits b) :: g)]
  else [].
Proof.
  destruct (two_digits_head b') as (c & t & Ht & Hc).
  rewrite Ht. simpl append at 2 4. now apply field_d.
Qed.

Lemma hd_error_map {A B} (f : A -> B) (l : list A) :
  hd_error (map f l) = option_map f (hd_error l).
Proof. destruct l; reflexivity. Qed.

Local Opaque two_digits.

Lemma _strptime_ts_string (b0 b1 b2 b3 b4 b5 : byte) :
  _strptime (ts_string b0 b1 b2 b3 b4 b5) ts_format
  = parsed_fields b0 b1 b2 b3 b4 b5.
Proof.
  unfold _strptime, parsed_fields.
  rewrite pattern_ts_format. unfold re_match, ts_regex, ts_string.
  rewrite matches_Cat_assoc, (matches_Cat_step _ _ _ _ _ _ _ _ (field_Y b0 _ _)).
  destruct (byte_int b0 <? 100) eqn:E0; [|reflexivity].
  rewrite matches_Cat_assoc, (matches_Cat_step _ _ _ _ _ _ _ _ (field_m b1 _ _)).
  destruct (between 1 (byte_int b1) 12) eqn:E1; [|reflexivity].
  rewrite matches_Cat_assoc,
    (matches_Cat_step _ _ _ _ _ _ _ _ (field_d_then b2 b3 _ _)).
  destruct (between 1 (byte_int b2) 31) eqn:E2; [|reflexivity].
  rewrite matches_Cat_assoc, (matches_Cat_step _ _ _ _ _ _ _ _ (field_H b3 _ _)).
  destruct (byte_int b3 <=? 23) eqn:E3; [|reflexivity].
  rewrite matches_Cat_assoc, (matches_Cat_step _ _ _ _ _ _ _ _ (field_M b4 _ _)).
  destruct (byte_int b4 <=? 59) eqn:E4; [|reflexivity].
  rewrite !hd_error_map.
  match goal with
  | |- context [hd_error (matches (Cat re_S Eps) (two_digits b5) ?g)] =>
      destruct (field_S b5 g) as (u & r & Hhd & Hsplit & Hr)
  end.
  unfold attempt, groupdict in *. rewrite Hhd. cbn [option_map andb].
  apply Z.ltb_lt in E0.
  destruct (byte_int b5 <=? 61) eqn:E5.
  - subst r. rewrite string_app_nil_r in Hsplit. subst u.
    replace (String.length _ =? String.length _)%nat with true.
    2:{ symmetry. apply Nat.eqb_eq.
        repeat (rewrite string_length_app || cbn [String.length]). lia. }
    cbn [negb getitem String.eqb Ascii.eqb Bool.eqb].
    rewrite (int_year b0 E0), !int_two_digits. reflexivity.
  - replace (String.length _ =? String.length _)%nat with false; [reflexivity|].
    symmetry. apply Nat.eqb_neq. rewrite Hsplit.
    destruct r; [congruence|].
    repeat (rewrite string_length_app || cbn [String.length]). lia.
Qed.

Local Transparent two_digits.

(** *** The calendar of [datetime] and the Gregorian rule *)

Lemma byte_int_range (b : byte) : 0 <= byte_int b <= 255.
Proof.
  unfold byte_int. pose proof (Byte.to_N_bounded b). lia.
Qed.

Lemma _is_leap_gregorian (y : Z) : _is_leap y = gregorian_leap y.
Proof.
  unfold _is_leap, gregorian_leap.
  destruct (y mod 4 =? 0) eqn:E4, (y mod 100 =? 0) eqn:E100,
           (y mod 400 =? 0) eqn:E400; try reflexivity; exfalso;
    rewrite ?Z.eqb_eq, ?Z.eqb_neq in *; Z.div_mod_to_equations; lia.
Qed.

Lemma _days_in_month_days_of_month (y m : Z) :
  1 <= m <= 12 -> _days_in_month y m = days_of_month y m.
Proof.
  intros Hm. unfold _days_in_month. rewrite _is_leap_gregorian.
  assert (m = 1 \/ m = 2 \/ m = 3 \/ m = 4 \/ m = 5 \/ m = 6 \/ m = 7
          \/ m = 8 \/ m = 9 \/ m = 10 \/ m = 11 \/ m = 12) as Hcases by lia.
  repeat (destruct Hcases as [-> | Hcases]); try subst m; cbn;
    try reflexivity; destruct (gregorian_leap y); reflexivity.
Qed.

Lemma days_of_month_le_31 (y m : Z) : days_of_month y m <= 31.
Proof.
  unfold days_of_month.
  repeat match goal with
         | |- context [match ?x with _ => _ end] => destruct x
         end; lia.
Qed.

Lemma _check_date_fields_days_of_month (y m d : Z) :
  1 <= y <= 9999 ->
  _check_date_fields y m d =
  if between 1 m 12 && between 1 d (days_of_month y m)
  then Some (y, m, d) else None.
Proof.
  intros Hy. unfold _check_date_fields, MINYEAR, MAXYEAR.
  replace (between 1 y 9999) with true
    by (symmetry; unfold between; apply andb_true_iff; split;
        apply Z.leb_le; lia).
  cbn [negb]. destruct (between 1 m 12) eqn:Em; [|reflexivity].
  rewrite _days_in_month_days_of_month by (bool_to_Z; lia).
  cbn [negb andb]. now destruct (between 1 d _).
Qed.

(** [strptime] accepts the string of six bytes exactly when the year
    byte is below 100 and the components are a date and time that exist. *)
Lemma strptime_ts_string (b0 b1 b2 b3 b4 b5 : byte) :
  strptime (ts_string b0 b1 b2 b3 b4 b5) ts_format =
  if (byte_int b0 <? 100)
     && valid_components (byte_int b0) (byte_int b1) (byte_int b2)
                         (byte_int b3) (byte_int b4) (byte_int b5)
  then Some {| year := 2000 + byte_int b0; month := byte_int b1;
               day := byte_int b2; hour := byte_int b3;
               minute := byte_int b4; second := byte_int b5 |}
  else None.
Proof.
  unfold strptime. rewrite _strptime_ts_string.
  pose proof (byte_int_range b0). pose proof (byte_int_range b1).
  pose proof (byte_int_range b2). pose proof (byte_int_range b3).
  pose proof (byte_int_range b4). pose proof (byte_int_range b5).
  pose proof (days_of_month_le_31 (2000 + byte_int b0) (byte_int b1)).
  unfold parsed_fields, datetime_new.
  rewrite !_check_date_fields_days_of_month by lia.
  unfold valid_components, _check_time_fields, between.
  destruct (byte_int b0 <? 100) eqn:E0; [|reflexivity].
  destruct (1 <=? byte_int b1) eqn:E1; [|reflexivity].
  destruct (byte_int b1 <=? 12) eqn:E2; [|reflexivity].
  destruct (1 <=? byte_int b2) eqn:E3; [|reflexivity].
  destruct (byte_int b2 <=? days_of_month _ _) eqn:E4,
           (byte_int b2 <=? 31) eqn:E5,
           (0 <=? byte_int b3) eqn:E6, (byte_int b3 <=? 23) eqn:E7,
           (0 <=? byte_int b4) eqn:E8, (byte_int b4 <=? 59) eqn:E9,
           (0 <=? byte_int b5) eqn:E10, (byte_int b5 <=? 59) eqn:E11,
           (byte_int b5 <=? 61) eqn:E12;
    cbn [andb negb]; rewrite ?E1, ?E2, ?E3, ?E4; cbn [andb negb];
    rewrite ?_check_date_fields_days_of_month by lia; unfold between;
    rewrite ?E1, ?E2, ?E3, ?E4, ?E6, ?E7, ?E8, ?E9, ?E10, ?E11;
    cbn [andb negb]; try reflexivity; exfalso; bool_to_Z; lia.
Qed.

Lemma ts_string_not_invalid (b0 b1 b2 b3 b4 b5 : byte) :
  String.eqb (ts_string b0 b1 b2 b3 b4 b5) "Invalid Date" = false.
Proof. reflexivity. Qed.

(** The timestamp block, by cases on the six bytes. *)
Lemma decode_timestamp_six (b0 b1 b2 b3 b4 b5 : byte) :
  decode_timestamp [b0; b1; b2; b3; b4; b5] =
  if (byte_int b0 <? 100)
     && valid_components (byte_int b0) (byte_int b1) (byte_int b2)
                         (byte_int b3) (byte_int b4) (byte_int b5)
  then ts_string b0 b1 b2 b3 b4 b5
  else "Invalid Date".
Proof.
  unfold decode_timestamp. rewrite ts_fstring_six, strptime_ts_string.
  now destruct (_ && _).
Qed.

End Timestamps.

(* ================================================================= *)
(** ** Searching for the marker *)

Section Find.

Lemma starts_with_firstn (sub s : bytes) :
  starts_with sub s = true <-> firstn (List.length sub) s = sub.
Proof.
  revert s. induction sub as [|x sub IH]; intros s; simpl.
  - split; reflexivity.
  - destruct s as [|y s]; [split; discriminate|].
    rewrite andb_true_iff, IH. split.
    + intros [E H]. apply Byte.byte_dec_bl in E. congruence.
    + intros H. injection H as -> H. split; [|assumption].
      now apply Byte.byte_dec_lb.
Qed.

Lemma starts_with_magic (s : bytes) :
  starts_with magic s = true <-> firstn 4 s = magic.
Proof. apply (starts_with_firstn magic). Qed.

Lemma marker_at_starts_with (content : bytes) (i : Z) :
  marker_at content i <->
  0 <= i /\ starts_with magic (skipn (Z.to_nat i) content) = true.
Proof. unfold marker_at. now rewrite starts_with_magic. Qed.

(** A marker occurrence lies inside the buffer. *)
Lemma marker_at_bound (content : bytes) (i : Z) :
  marker_at content i -> 0 <= i /\ i + 4 <= len content.
Proof.
  intros [Hi H]. split; [assumption|].
  assert (List.length (firstn 4 (skipn (Z.to_nat i) content)) = 4%nat) as Hl
    by now rewrite H.
  rewrite length_firstn, length_skipn in Hl. unfold len. lia.
Qed.

Lemma first_occurrence_Some (sub s : bytes) (k : nat) :
  first_occurrence sub s = Some k ->
  starts_with sub (skipn k s) = true
  /\ forall j, (j < k)%nat -> starts_with sub (skipn j s) = false.
Proof.
  revert k. induction s as [|x s IH]; intros k; simpl.
  - destruct (starts_with sub []) eqn:E; [|discriminate].
    intros [= <-]. split; [assumption | intros j Hj; lia].
  - destruct (starts_with sub (x :: s)) eqn:E.
    + intros [= <-]. split; [assumption | intros j Hj; lia].
    + destruct (first_occurrence sub s) as [k'|] eqn:Ek; [|discriminate].
      simpl. intros [= <-]. destruct (IH k' eq_refl) as [H1 H2].
      split; [assumption|].
      intros [|j] Hj; simpl; [assumption | apply H2; lia].
Qed.

Lemma first_occurrence_None (sub s : bytes) :
  first_occurrence sub s = None ->
  forall j, starts_with sub (skipn j s) = false.
Proof.
  induction s as [|x s IH]; simpl.
  - destruct (starts_with sub []) eqn:E; [discriminate|].
    intros _ j. now destruct j.
  - destruct (starts_with sub (x :: s)) eqn:E; [discriminate|].
    destruct (first_occurrence sub s) eqn:Ek; [discriminate|].
    intros _ [|j]; simpl; [assumption | now apply IH].
Qed.

(** [find] answers [-1] or the first marker occurrence from [start] on. *)
Lemma find_magic_spec (content : bytes) (start : Z) :
  0 <= start ->
  let idx := find content magic start in
  (idx = -1 /\ forall j, start <= j -> ~ marker_at content j)
  \/ (start <= idx /\ marker_at content idx
      /\ forall j, start <= j < idx -> ~ marker_at content j).
Proof.
  intros Hs. unfold find.
  replace (start <? 0) with false by (symmetry; apply Z.ltb_ge; lia).
  destruct (start >? len content) eqn:Hgt.
  - left. split; [reflexivity|]. intros j Hj Hm.
    apply marker_at_bound in Hm. apply Z.gtb_lt in Hgt. lia.
  - destruct (first_occurrence magic (skipn (Z.to_nat start) content))
      as [k|] eqn:Ek.
    + right. apply first_occurrence_Some in Ek. destruct Ek as [H1 H2].
      rewrite skipn_skipn in H1.
      split; [lia|]. split.
      * apply marker_at_starts_with. split; [lia|].
        now replace (Z.to_nat (start + Z.of_nat k))
          with (k + Z.to_nat start)%nat by lia.
      * intros j Hj Hm. apply marker_at_starts_with in Hm.
        destruct Hm as [_ Hm].
        specialize (H2 (Z.to_nat (j - start)) ltac:(lia)).
        rewrite skipn_skipn in H2.
        replace (Z.to_nat (j - start) + Z.to_nat start)%nat
          with (Z.to_nat j) in H2 by lia.
        congruence.
    + left. split; [reflexivity|]. intros j Hj Hm.
      apply marker_at_starts_with in Hm. destruct Hm as [_ Hm].
      pose proof (first_occurrence_None _ _ Ek (Z.to_nat (j - start))) as H2.
      rewrite skipn_skipn in H2.
      replace (Z.to_nat (j - start) + Z.to_nat start)%nat
        with (Z.to_nat j) in H2 by lia.
      congruence.
Qed.

(** Conversely, the first occurrence from [start] on is what [find]
    answers. *)
Lemma find_magic_first (content : bytes) (start idx : Z) :
  0 <= start <= idx ->
  marker_at content idx ->
  (forall j, start <= j < idx -> ~ marker_at content j) ->
  find content magic start = idx.
Proof.
  intros Hs Hm Hfirst.
  destruct (find_magic_spec content start ltac:(lia)) as [[_ Hno] | (Hle & Hm' & Hno)].
  - exfalso. apply (Hno idx); [lia | assumption].
  - destruct (Z.lt_trichotomy (find content magic start) idx) as [Hlt | [Heq | Hgt]].
    + exfalso. apply (Hfirst (find content magic start)); [lia | assumption].
    + assumption.
    + exfalso. apply (Hno idx); [lia | assumption].
Qed.

Lemma find_magic_none (content : bytes) (start : Z) :
  0 <= start ->
  (forall j, start <= j -> ~ marker_at content j) ->
  find content magic start = -1.
Proof.
  intros Hs Hno.
  destruct (find_magic_spec content start Hs) as [[H _] | (Hle & Hm & _)].
  - assumption.
  - exfalso. apply (Hno _ Hle Hm).
Qed.

End Find.

(* ================================================================= *)
(** ** Decoding one window *)

Section Decode.

Lemma slice_inside {A} (l : list A) (a b : Z) :
  0 <= a <= b -> b <= len l ->
  slice l a b = firstn (Z.to_nat (b - a)) (skipn (Z.to_nat a) l).
Proof.
  intros Ha Hb. unfold slice, clamp.
  replace (a <? 0) with false by (symmetry; apply Z.ltb_ge; lia).
  replace (b <? 0) with false by (symmetry; apply Z.ltb_ge; lia).
  now rewrite !Z.min_l by lia.
Qed.

Lemma window_length (content : bytes) (idx : Z) :
  0 <= idx -> idx + 30 <= len content ->
  List.length (window content idx) = 30%nat.
Proof.
  intros Hi Hl. unfold window. rewrite slice_inside by lia.
  rewrite length_firstn, length_skipn. unfold len in Hl. lia.
Qed.

(** On 30 bytes neither [struct.unpack] call nor any index fails, and
    the fields come from fixed places of the window. *)
Lemma decode_record_window (idx : Z) (w : bytes) :
  List.length w = 30%nat ->
  decode_record idx w =
  Some {| Offset := "0x" ++ format_X 0 idx;
          Start_Time := decode_timestamp (slice w 16 22);
          End_Time := decode_timestamp (slice w 22 28);
          Duration_min := be16 w 14;
          Pressure_Raw := be16 w 10;
          Val1 := be16 w 4;
          Val2 := be16 w 6;
          Val3 := be16 w 8;
          Val4 := be16 w 12;
          Spacer := "0x" ++ format_X 4 (be16 w 28) |}.
Proof.
  intros Hw.
  do 30 (destruct w as [|? w]; [discriminate Hw|]).
  destruct w; [|discriminate Hw].
  unfold decode_record, be16, unpack_H, index.
  cbv -[decode_timestamp format_X byte_int append Z.mul].
  repeat rewrite (Z.mul_comm (byte_int _) 256).
  reflexivity.
Qed.

(** *** Reading the hexadecimal fields back *)

Lemma hex_uint_upper_hex (d : Hexadecimal.uint) :
  hex_uint (upper_hex d) = Some d.
Proof.
  induction d as [|d IH|d IH|d IH|d IH|d IH|d IH|d IH|d IH|d IH
                   |d IH|d IH|d IH|d IH|d IH|d IH|d IH];
    simpl; try rewrite IH; reflexivity.
Qed.

Lemma hex_uint_zeros (k : nat) (s : string) (d : Hexadecimal.uint) :
  hex_uint s = Some d ->
  exists d', hex_uint (zeros k ++ s) = Some d'
             /\ N.of_hex_uint d' = N.of_hex_uint d.
Proof.
  intros Hs. induction k as [|k [d' [H1 H2]]]; simpl.
  - now exists d.
  - exists (Hexadecimal.D0 d'). rewrite H1. simpl. now split.
Qed.

Lemma upper_hex_not_empty (n : N) :
  upper_hex (N.to_hex_uint n) <> "".
Proof.
  intros H. pose proof (Unsigned.of_to n) as Hn.
  destruct (N.to_hex_uint n) eqn:E; try discriminate H.
  simpl in Hn. subst n. discriminate E.
Qed.

Lemma hex_int_format_X (width : nat) (n : Z) :
  0 <= n -> hex_int ("0x" ++ format_X width n) = Some n.
Proof.
  intros Hn. unfold format_X, zero_pad.
  replace (n <? 0) with false by (symmetry; apply Z.ltb_ge; lia).
  cbn [append hex_int String.length Nat.sub].
  set (k := (width - 0 - _)%nat).
  destruct (hex_uint_zeros k _ _ (hex_uint_upper_hex (N.to_hex_uint (Z.abs_N n))))
    as (d' & H1 & H2).
  pose proof (upper_hex_not_empty (Z.abs_N n)) as Hne.
  destruct (zeros k ++ upper_hex (N.to_hex_uint (Z.abs_N n)))%string eqn:E.
  - exfalso. destruct k; simpl in E; [now apply Hne | discriminate E].
  - rewrite H1, H2, Unsigned.of_to. f_equal. lia.
Qed.

End Decode.

(* ================================================================= *)
(** ** The loop *)

Section Loop.

Variable content : bytes.

(** The three ways through the loop body: no marker is left, the marker
    found has fewer than 30 bytes from its start to the end of the
    buffer, or a record is appended and the cursor moves to [idx + 4].
    No exception escapes. *)
Lemma loop_body_spec (st : state) :
  0 <= offset st ->
  let idx := find content magic (offset st) in
  (loop_body content st = Break /\ idx = -1
   /\ forall j, offset st <= j -> ~ marker_at content j)
  \/ (loop_body content st = Break /\ offset st <= idx
      /\ marker_at content idx /\ len content < idx + 30
      /\ forall j, offset st <= j < idx -> ~ marker_at content j)
  \/ (exists r,
        loop_body content st =
          Continue {| offset := idx + 4; records := (records st ++ [r])%list |}
        /\ offset st <= idx /\ decodes content idx r
        /\ forall j, offset st <= j < idx -> ~ marker_at content j).
Proof.
  intros Hoff. cbv zeta. unfold loop_body.
  destruct (find_magic_spec content (offset st) Hoff)
    as [[Hidx Hno] | (Hle & Hm & Hno)];
    set (idx := find content magic (offset st)) in *.
  - left. rewrite Hidx. simpl. auto.
  - replace (idx =? -1) with false by (symmetry; apply Z.eqb_neq; lia).
    destruct (idx + 30 >? len content) eqn:Hfull.
    + right; left. apply Z.gtb_lt in Hfull. auto.
    + right; right.
      assert (idx + 30 <= len content) as Hroom.
      { rewrite Z.gtb_ltb in Hfull. apply Z.ltb_ge in Hfull. lia. }
      pose proof (decode_record_window idx (slice content idx (idx + 30))
                    (window_length content idx ltac:(lia) Hroom)) as Hdec.
      rewrite Hdec. eexists. split; [reflexivity|].
      split; [assumption|]. split; [|assumption].
      unfold decodes. auto.
Qed.

(** The marker cannot start again on its second or third byte. *)
Lemma marker_at_nth (i : Z) (k : nat) :
  marker_at content i -> (k < 4)%nat ->
  nth_error content (Z.to_nat i + k) = nth_error magic k.
Proof.
  intros [Hi H] Hk. rewrite <- H, nth_error_firstn, nth_error_skipn.
  destruct (Nat.ltb_spec k 4); [reflexivity | lia].
Qed.

Lemma marker_at_not_next (i j : Z) :
  marker_at content i -> marker_at content j ->
  j <> i + 1 /\ j <> i + 2.
Proof.
  intros Hi Hj. pose proof (proj1 Hi). split; intros ->.
  - pose proof (marker_at_nth i 1 Hi ltac:(lia)) as H1.
    pose proof (marker_at_nth (i + 1) 0 Hj ltac:(lia)) as H2.
    replace (Z.to_nat (i + 1) + 0)%nat with (Z.to_nat i + 1)%nat in H2 by lia.
    rewrite H1 in H2. discriminate H2.
  - pose proof (marker_at_nth i 2 Hi ltac:(lia)) as H1.
    pose proof (marker_at_nth (i + 2) 0 Hj ltac:(lia)) as H2.
    replace (Z.to_nat (i + 2) + 0)%nat with (Z.to_nat i + 2)%nat in H2 by lia.
    rewrite H1 in H2. discriminate H2.
Qed.

(** The record of a window, field by field. *)
Lemma decodes_record (idx : Z) (r : record) :
  decodes content idx r ->
  let w := window content idx in
  r = {| Offset := "0x" ++ format_X 0 idx;
         Start_Time := decode_timestamp (slice w 16 22);
         End_Time := decode_timestamp (slice w 22 28);
         Duration_min := be16 w 14;
         Pressure_Raw := be16 w 10;
         Val1 := be16 w 4;
         Val2 := be16 w 6;
         Val3 := be16 w 8;
         Val4 := be16 w 12;
         Spacer := "0x" ++ format_X 4 (be16 w 28) |}.
Proof.
  intros (Hm & Hroom & Hdec) w. subst w.
  rewrite (decode_record_window idx (window content idx)) in Hdec
    by (apply window_length; [apply Hm | assumption]).
  now injection Hdec.
Qed.

Lemma decodes_offset_of (idx : Z) (r : record) :
  decodes content idx r -> offset_of r = Some idx.
Proof.
  intros H. pose proof (proj1 (proj1 H)) as Hidx.
  rewrite (decodes_record idx r H). unfold offset_of. cbn [Offset].
  now apply hex_int_format_X.
Qed.

Lemma decodes_functional (idx : Z) (r r' : record) :
  decodes content idx r -> decodes content idx r' -> r = r'.
Proof. intros (_ & _ & H) (_ & _ & H'). congruence. Qed.

End Loop.

(* ================================================================= *)
(** ** Running the loop to its end *)

Section Run.

Variable content : bytes.

Lemma StronglySorted_snoc (l : list Z) (x : Z) :
  StronglySorted Z.lt l -> (forall m, In m l -> m < x) ->
  StronglySorted Z.lt (l ++ [x]).
Proof.
  induction 1 as [|a l Hl IH Ha]; intros Hx; simpl.
  - constructor; constructor.
  - constructor.
    + apply IH. intros m Hm. apply Hx. now right.
    + apply Forall_app. split; [assumption|].
      constructor; [|constructor]. apply Hx. now left.
Qed.

Lemma scan_inv_initial : scan_inv content initial [].
Proof.
  constructor; simpl.
  - constructor.
  - constructor.
  - lia.
  - contradiction.
  - intros j [Hj _] Hneg. lia.
  - now left.
Qed.

Lemma scan_inv_step (st st' : state) (idxs : list Z) :
  scan_inv content st idxs ->
  loop_body content st = Continue st' ->
  scan_inv content st' (idxs ++ [find content magic (offset st)]).
Proof.
  intros Hinv Hstep.
  destruct (loop_body_spec content st (inv_cursor _ _ _ Hinv))
    as [(Hb & _) | [(Hb & _) | (r & Hc & Hle & Hdec & Hno)]];
    try congruence.
  rewrite Hc in Hstep. injection Hstep as <-.
  set (idx := find content magic (offset st)) in *.
  destruct Hdec as (Hm & Hroom & Hdec).
  constructor; cbn [offset records].
  - apply Forall2_app; [apply (inv_records _ _ _ Hinv)|].
    constructor; [|constructor]. unfold decodes. auto.
  - apply StronglySorted_snoc; [apply (inv_sorted _ _ _ Hinv)|].
    intros m Hin. pose proof (inv_behind _ _ _ Hinv m Hin). lia.
  - pose proof (inv_cursor _ _ _ Hinv). lia.
  - intros m Hin. apply in_app_or in Hin. destruct Hin as [Hin | [<- | []]].
    + pose proof (inv_behind _ _ _ Hinv m Hin). lia.
    + lia.
  - intros j Hj Hlt.
    destruct (Z_lt_le_dec j (offset st)) as [Hbehind | Hahead].
    + destruct (inv_covered _ _ _ Hinv j Hj Hbehind);
        [left | right]; apply in_or_app; now left.
    + destruct (Z_lt_le_dec j idx) as [Hbefore | Hafter].
      * exfalso. apply (Hno j); [lia | assumption].
      * destruct (marker_at_not_next content idx j Hm Hj) as [H1 H2].
        assert (j = idx \/ j = idx + 3) as [-> | ->] by lia.
        -- left. apply in_or_app. right. now left.
        -- right. apply in_or_app. right. left. lia.
  - right. lia.
Qed.

Lemma reachable_inv (st : state) :
  reachable content st -> exists idxs, scan_inv content st idxs.
Proof.
  induction 1 as [|st st' _ [idxs IH] Hstep].
  - exists []. apply scan_inv_initial.
  - eexists. eapply scan_inv_step; eassumption.
Qed.

(** More fuel does not change a result. *)
Lemma while_true_more_fuel (fuel k : nat) (st : state) (rs : list record) :
  while_true fuel content st = Returned rs ->
  while_true (fuel + k) content st = Returned rs.
Proof.
  revert st. induction fuel as [|fuel IH]; intros st; simpl.
  - discriminate.
  - destruct (loop_body content st); auto.
Qed.

(** The run from the start goes through every reachable state. *)
Lemma while_true_through (st : state) :
  reachable content st ->
  exists n, forall fuel,
    while_true (n + fuel) content initial = while_true fuel content st.
Proof.
  induction 1 as [|st st' _ [n IH] Hstep].
  - now exists 0%nat.
  - exists (S n). intros fuel.
    replace (S n + fuel)%nat with (n + S fuel)%nat by lia.
    rewrite IH. simpl. now rewrite Hstep.
Qed.

(** With fuel for the bytes that are left, the loop comes to a [break]
    and returns the records collected there. *)
Lemma while_true_final (fuel : nat) (st : state) :
  reachable content st ->
  0 <= offset st <= len content ->
  len content - offset st < Z.of_nat fuel ->
  exists st_f,
    reachable content st_f /\ loop_body content st_f = Break
    /\ while_true fuel content st = Returned (records st_f).
Proof.
  revert st. induction fuel as [|fuel IH]; intros st Hreach Hoff Hfuel.
  - lia.
  - destruct (loop_body_spec content st ltac:(lia))
      as [(Hb & _) | [(Hb & _) | (r & Hc & Hle & Hdec & _)]].
    + exists st. simpl. rewrite Hb. auto.
    + exists st. simpl. rewrite Hb. auto.
    + destruct Hdec as (Hm & Hroom & _).
      simpl. rewrite Hc. apply IH.
      * eapply reach_continue; eassumption.
      * cbn [offset]. destruct Hm. lia.
      * cbn [offset]. lia.
Qed.

(** The run ends, without an exception and within its fuel, at a
    reachable state where the loop breaks. *)
Lemma run_final :
  exists st_f,
    reachable content st_f /\ loop_body content st_f = Break
    /\ run content = Returned (records st_f).
Proof.
  unfold run. apply while_true_final.
  - constructor.
  - simpl. unfold len. lia.
  - simpl offset. unfold len. lia.
Qed.

(** Whatever reachable state the loop breaks at, its records are the
    result. *)
Lemma run_at_break (st : state) :
  reachable content st -> loop_body content st = Break ->
  run content = Returned (records st).
Proof.
  intros Hreach Hbreak.
  destruct run_final as (st_f & _ & _ & Hrun).
  destruct (while_true_through st Hreach) as [n Hn].
  specialize (Hn 1%nat). simpl in Hn. rewrite Hbreak in Hn.
  apply (while_true_more_fuel _ (S (List.length content))) in Hn.
  unfold run in Hrun.
  apply (while_true_more_fuel _ (n + 1)) in Hrun.
  replace (n + 1 + S (List.length content))%nat
    with (S (List.length content) + (n + 1))%nat in Hn by lia.
  rewrite Hn in Hrun. unfold run.
  destruct run_final as (st_f' & _ & _ & Hrun'). unfold run in Hrun'.
  rewrite Hrun'. injection Hrun as Hrs.
  apply (while_true_more_fuel _ (n + 1)) in Hrun'.
  rewrite Hn in Hrun'. congruence.
Qed.

Lemma scan_at_break (st : state) :
  reachable content st -> loop_body content st = Break ->
  scan content = records st.
Proof. intros Hr Hb. unfold scan. now rewrite (run_at_break st Hr Hb). Qed.

End Run.

(* ================================================================= *)
(** ** What the scanner returns *)

Section Result.

Variable content : bytes.

(** The records returned are those of the windows at a strictly
    increasing list of offsets, and every marker occurrence with a full
    window was matched unless the scanner skipped it, 3 bytes after a
    match. *)
Lemma scan_result :
  exists idxs,
    Forall2 (decodes content) idxs (scan content)
    /\ StronglySorted Z.lt idxs
    /\ forall j, marker_at content j -> j + 30 <= len content ->
                 In j idxs \/ In (j - 3) idxs.
Proof.
  destruct (run_final content) as (st_f & Hreach & Hbreak & Hrun).
  destruct (reachable_inv content st_f Hreach) as [idxs Hinv].
  exists idxs. unfold scan. rewrite Hrun.
  split; [apply (inv_records _ _ _ Hinv)|].
  split; [apply (inv_sorted _ _ _ Hinv)|].
  intros j Hj Hroom. apply (inv_covered _ _ _ Hinv j Hj).
  destruct (loop_body_spec content st_f (inv_cursor _ _ _ Hinv))
    as [(_ & _ & Hno) | [(_ & Hle & Hm & Hshort & Hno) | (r & Hc & _)]].
  - destruct (Z_lt_le_dec j (offset st_f)) as [|Hge]; [assumption|].
    exfalso. apply (Hno j Hge Hj).
  - destruct (Z_lt_le_dec j (offset st_f)) as [|Hge]; [assumption|].
    exfalso.
    destruct (Z_lt_le_dec j (find content magic (offset st_f))) as [Hlt|];
      [apply (Hno j); [lia | assumption] | lia].
  - congruence.
Qed.

Lemma Forall2_In_l {A B} (R : A -> B -> Prop) (l : list A) (l' : list B) a :
  Forall2 R l l' -> In a l -> exists b, In b l' /\ R a b.
Proof.
  induction 1 as [|x y l l' Hxy _ IH]; intros Hin; [contradiction|].
  destruct Hin as [<- | Hin].
  - exists y. split; [now left | assumption].
  - destruct (IH Hin) as (b & Hb & Hab). exists b. split; [now right | assumption].
Qed.

Lemma Forall2_In_r {A B} (R : A -> B -> Prop) (l : list A) (l' : list B) b :
  Forall2 R l l' -> In b l' -> exists a, In a l /\ R a b.
Proof.
  induction 1 as [|x y l l' Hxy _ IH]; intros Hin; [contradiction|].
  destruct Hin as [<- | Hin].
  - exists x. split; [now left | assumption].
  - destruct (IH Hin) as (a & Ha & Hab). exists a. split; [now right | assumption].
Qed.

Lemma Forall2_decodes_offsets (idxs : list Z) (rs : list record) :
  Forall2 (decodes content) idxs rs -> map offset_of rs = map Some idxs.
Proof.
  induction 1 as [|idx r idxs rs Hdec _ IH]; simpl; [reflexivity|].
  now rewrite IH, (decodes_offset_of content idx r Hdec).
Qed.

(** From a loop state on, the result only grows. *)
Lemma while_true_extends (fuel : nat) (st : state) (rs : list record) :
  0 <= offset st ->
  while_true fuel content st = Returned rs ->
  exists more, rs = (records st ++ more)%list.
Proof.
  revert st. induction fuel as [|fuel IH]; intros st Hoff; simpl.
  - discriminate.
  - destruct (loop_body_spec content st Hoff)
      as [(Hb & _) | [(Hb & _) | (r & Hc & Hle & _)]].
    + rewrite Hb. intros [= <-]. exists []. now rewrite app_nil_r.
    + rewrite Hb. intros [= <-]. exists []. now rewrite app_nil_r.
    + rewrite Hc. intros Hrun. apply IH in Hrun; [|cbn [offset]; lia].
      destruct Hrun as [more ->]. cbn [records].
      exists (r :: more). now rewrite <- app_assoc.
Qed.

Lemma scan_extends (st : state) :
  reachable content st ->
  exists more, scan content = (records st ++ more)%list.
Proof.
  intros Hreach.
  destruct (run_final content) as (st_f & _ & _ & Hrun).
  destruct (while_true_through content st Hreach) as [n Hn].
  destruct (reachable_inv content st Hreach) as [idxs Hinv].
  unfold scan. rewrite Hrun. unfold run in Hrun.
  apply (while_true_more_fuel _ _ n) in Hrun.
  rewrite Nat.add_comm, Hn in Hrun.
  apply (while_true_extends _ _ _ (inv_cursor _ _ _ Hinv) Hrun).
Qed.

End Result.

(* ================================================================= *)
(** ** Properties of the timestamp decoder *)

Section TimestampProperties.

Lemma timestamp_result_ts_string (b0 b1 b2 b3 b4 b5 : byte) :
  byte_int b0 < 100 ->
  valid_components (byte_int b0) (byte_int b1) (byte_int b2)
                   (byte_int b3) (byte_int b4) (byte_int b5) = true ->
  timestamp_result (ts_string b0 b1 b2 b3 b4 b5) =
  Valid (2000 + byte_int b0) (byte_int b1) (byte_int b2)
        (byte_int b3) (byte_int b4) (byte_int b5).
Proof.
  intros Hy Hv. unfold timestamp_result.
  rewrite ts_string_not_invalid, strptime_ts_string, Hv.
  apply Z.ltb_lt in Hy. now rewrite Hy.
Qed.

(** C2, as amended: for all six timestamp bytes with the year byte in
    0..99, month in 1..12, day valid for that month of year 2000+yy, hour
    in 0..23, minute and second in 0..59, the decoder keeps the formatted
    string, which reads back as Valid with exactly those components, the
    year being 2000 plus the year byte. *)
Theorem decode_timestamp_valid (b0 b1 b2 b3 b4 b5 : byte) :
  byte_int b0 < 100 ->
  valid_components (byte_int b0) (byte_int b1) (byte_int b2)
                   (byte_int b3) (byte_int b4) (byte_int b5) = true ->
  decode_timestamp [b0; b1; b2; b3; b4; b5] = ts_string b0 b1 b2 b3 b4 b5
  /\ timestamp_result (decode_timestamp [b0; b1; b2; b3; b4; b5]) =
     Valid (2000 + byte_int b0) (byte_int b1) (byte_int b2)
           (byte_int b3) (byte_int b4) (byte_int b5).
Proof.
  intros Hy Hv. rewrite decode_timestamp_six, Hv.
  replace (byte_int b0 <? 100) with true by (symmetry; now apply Z.ltb_lt).
  split; [reflexivity|]. now apply timestamp_result_ts_string.
Qed.

(** The bytes [24, 1, 15, 8, 30, 0] give 2024-01-15 08:30:00. *)
Lemma decode_timestamp_valid_witness :
  byte_int x18 < 100
  /\ valid_components (byte_int x18) (byte_int x01) (byte_int x0f)
                      (byte_int x08) (byte_int x1e) (byte_int x00) = true
  /\ decode_timestamp [x18; x01; x0f; x08; x1e; x00] = "2024-01-15 08:30:00"
  /\ timestamp_result (decode_timestamp [x18; x01; x0f; x08; x1e; x00]) =
     Valid 2024 1 15 8 30 0.
Proof.
  split; [reflexivity|]. split; [reflexivity|].
  apply (decode_timestamp_valid x18 x01 x0f x08 x1e x00); reflexivity.
Defined.

(** C2 as stated fails over the full byte range: 1 January 2100,
    00:00:00 exists, yet the year byte 100 is decoded to Invalid. *)
Lemma decode_timestamp_year_2100 :
  ~ (forall b0 b1 b2 b3 b4 b5 : byte,
        valid_components (byte_int b0) (byte_int b1) (byte_int b2)
                         (byte_int b3) (byte_int b4) (byte_int b5) = true ->
        timestamp_result (decode_timestamp [b0; b1; b2; b3; b4; b5]) =
        Valid (2000 + byte_int b0) (byte_int b1) (byte_int b2)
              (byte_int b3) (byte_int b4) (byte_int b5)).
Proof.
  intros H. specialize (H x64 x01 x01 x00 x00 x00 eq_refl).
  vm_compute in H. discriminate H.
Qed.

(** C8: the decoder returns Invalid for every six bytes whose components
    break the calendar rules (leap years included) or the ranges of hour,
    minute and second; in particular for 30 February of any year, for
    hour 24 and for minute 60, whatever the other bytes are. *)
Theorem decode_timestamp_invalid :
  (forall b0 b1 b2 b3 b4 b5 : byte,
      valid_components (byte_int b0) (byte_int b1) (byte_int b2)
                       (byte_int b3) (byte_int b4) (byte_int b5) = false ->
      decode_timestamp [b0; b1; b2; b3; b4; b5] = "Invalid Date"
      /\ timestamp_result (decode_timestamp [b0; b1; b2; b3; b4; b5]) = Invalid)
  /\ (forall b0 b3 b4 b5 : byte,
         decode_timestamp [b0; x02; x1e; b3; b4; b5] = "Invalid Date")
  /\ (forall b0 b1 b2 b4 b5 : byte,
         decode_timestamp [b0; b1; b2; x18; b4; b5] = "Invalid Date")
  /\ (forall b0 b1 b2 b3 b5 : byte,
         decode_timestamp [b0; b1; b2; b3; x3c; b5] = "Invalid Date").
Proof.
  assert (forall b0 b1 b2 b3 b4 b5 : byte,
             valid_components (byte_int b0) (byte_int b1) (byte_int b2)
                              (byte_int b3) (byte_int b4) (byte_int b5) = false ->
             decode_timestamp [b0; b1; b2; b3; b4; b5] = "Invalid Date") as Hinv.
  { intros b0 b1 b2 b3 b4 b5 Hv.
    now rewrite decode_timestamp_six, Hv, andb_false_r. }
  split; [|split; [|split]].
  - intros b0 b1 b2 b3 b4 b5 Hv. now rewrite (Hinv _ _ _ _ _ _ Hv).
  - intros b0 b3 b4 b5. apply Hinv. unfold valid_components.
    replace (between 1 (byte_int x1e) (days_of_month (2000 + byte_int b0) (byte_int x02)))
      with false; [reflexivity|].
    change (byte_int x02) with 2. change (byte_int x1e) with 30.
    unfold days_of_month. now destruct (gregorian_leap _).
  - intros b0 b1 b2 b4 b5. apply Hinv. unfold valid_components.
    change (between 0 (byte_int x18) 23) with false.
    now rewrite andb_false_r.
  - intros b0 b1 b2 b3 b5. apply Hinv. unfold valid_components.
    change (between 0 (byte_int x3c) 59) with false.
    now rewrite andb_false_r.
Qed.

(** 29 February 2023 does not exist: [23, 2, 29, 8, 30, 0]. *)
Lemma decode_timestamp_invalid_witness :
  valid_components (byte_int x17) (byte_int x02) (byte_int x1d)
                   (byte_int x08) (byte_int x1e) (byte_int x00) = false
  /\ decode_timestamp [x17; x02; x1d; x08; x1e; x00] = "Invalid Date"
  /\ timestamp_result (decode_timestamp [x17; x02; x1d; x08; x1e; x00]) = Invalid.
Proof.
  split; [reflexivity|].
  apply (proj1 decode_timestamp_invalid x17 x02 x1d x08 x1e x00). reflexivity.
Defined.

(** C10: when the year byte is in 100..255 the string starts with "20"
    and the three digits of the byte, [strptime] rejects it and the
    decoder returns Invalid, whatever the other five bytes are, valid
    date and time or not. *)
Theorem decode_timestamp_year_byte_ge_100 (b0 b1 b2 b3 b4 b5 : byte) :
  100 <= byte_int b0 ->
  ts_fstring [b0; b1; b2; b3; b4; b5] = Some (ts_string b0 b1 b2 b3 b4 b5)
  /\ String.length (two_digits b0) = 3%nat
  /\ strptime (ts_string b0 b1 b2 b3 b4 b5) ts_format = None
  /\ decode_timestamp [b0; b1; b2; b3; b4; b5] = "Invalid Date"
  /\ timestamp_result (decode_timestamp [b0; b1; b2; b3; b4; b5]) = Invalid.
Proof.
  intros Hy.
  assert ((byte_int b0 <? 100) = false) as Hlt by (apply Z.ltb_ge; lia).
  split; [reflexivity|]. split.
  { clear Hlt. destruct b0; first [reflexivity | vm_compute in Hy; now destruct Hy]. }
  split; [now rewrite strptime_ts_string, Hlt|].
  now rewrite decode_timestamp_six, Hlt.
Qed.

(** 1 January 2100, 00:00:00: [100, 1, 1, 0, 0, 0]. *)
Lemma decode_timestamp_year_byte_ge_100_witness :
  100 <= byte_int x64
  /\ valid_components (byte_int x64) (byte_int x01) (byte_int x01)
                      (byte_int x00) (byte_int x00) (byte_int x00) = true
  /\ ts_fstring [x64; x01; x01; x00; x00; x00] = Some "20100-01-01 00:00:00"
  /\ decode_timestamp [x64; x01; x01; x00; x00; x00] = "Invalid Date".
Proof.
  split; [discriminate|]. split; [reflexivity|].
  destruct (decode_timestamp_year_byte_ge_100 x64 x01 x01 x00 x00 x00)
    as (H1 & _ & _ & H4 & _); [discriminate|].
  split; [exact H1 | exact H4].
Defined.

End TimestampProperties.

(* ================================================================= *)
(** ** Properties of the scanner *)

Section ScannerProperties.

(** C7: a buffer shorter than 30 bytes, the empty one included, gives no
    record. *)
Theorem scan_short_buffer (content : bytes) :
  len content < 30 -> scan content = [].
Proof.
  intros Hshort.
  apply (scan_at_break content initial (reach_initial content)).
  destruct (loop_body_spec content initial ltac:(simpl; lia))
    as [(Hb & _) | [(Hb & _) | (r & _ & Hle & (_ & Hroom & _) & _)]];
    try assumption.
  exfalso. cbn [offset initial] in Hle, Hroom. lia.
Qed.

(** A marker followed by 25 bytes. *)
Lemma scan_short_buffer_witness :
  len (removelast blank_window) < 30 /\ scan (removelast blank_window) = [].
Proof.
  split; [reflexivity|]. apply scan_short_buffer. reflexivity.
Defined.

(** C5: the offsets of the records returned are strictly increasing, in
    the order of the buffer; each is the place of a marker. *)
Theorem scan_offsets_increasing (content : bytes) :
  exists idxs,
    map offset_of (scan content) = map Some idxs
    /\ StronglySorted Z.lt idxs
    /\ Forall (marker_at content) idxs.
Proof.
  destruct (scan_result content) as (idxs & Hdec & Hsorted & _).
  exists idxs. split; [now apply (Forall2_decodes_offsets content)|].
  split; [assumption|].
  apply Forall_forall. intros m Hm.
  destruct (Forall2_In_l _ _ _ _ Hdec Hm) as (r & _ & Hr). apply Hr.
Qed.

(** C3: when the marker the search finds has fewer than 30 bytes from
    its start to the end of the buffer, the scan ends there without an
    error and returns the records collected so far; no record has that
    offset. One byte short, [idx + 30 = len + 1], is such a case. *)
Theorem scan_truncated_tail (content : bytes) (st : state) (idx : Z) :
  reachable content st ->
  find content magic (offset st) = idx ->
  idx <> -1 ->
  len content < idx + 30 ->
  run content = Returned (records st)
  /\ scan content = records st
  /\ forall r, In r (scan content) -> offset_of r <> Some idx.
Proof.
  intros Hreach Hfind Hfound Hshort.
  assert (loop_body content st = Break) as Hbreak.
  { unfold loop_body. rewrite Hfind.
    replace (idx =? -1) with false by (symmetry; now apply Z.eqb_neq).
    now replace (idx + 30 >? len content) with true
      by (symmetry; apply Z.gtb_lt; lia). }
  split; [now apply run_at_break|].
  split; [now apply scan_at_break|].
  intros r Hr Hoff.
  destruct (scan_result content) as (idxs & Hdec & _).
  destruct (Forall2_In_r _ _ _ _ Hdec Hr) as (m & _ & Hm).
  rewrite (decodes_offset_of content m r Hm) in Hoff.
  injection Hoff as ->. destruct Hm as (_ & Hroom & _). lia.
Qed.

(** One full window, then a marker with 29 bytes: the second marker is
    found at 30 and [30 + 30 = 59 + 1]. *)
Lemma scan_truncated_tail_witness :
  let content := (sample_window ++ removelast blank_window)%list in
  let st := {| offset := 4; records := [sample_record] |} in
  reachable content st
  /\ find content magic (offset st) = 30
  /\ 30 + 30 = len content + 1
  /\ scan content = [sample_record].
Proof.
  intros content st.
  assert (reachable content st) as Hreach.
  { apply (reach_continue content initial); [constructor|].
    vm_compute. reflexivity. }
  split; [exact Hreach|]. split; [reflexivity|]. split; [reflexivity|].
  apply (scan_truncated_tail content st 30 Hreach);
    [reflexivity | discriminate | reflexivity].
Defined.

(** C6: a full window the search finds always adds its record to the
    result, with each time field holding what the timestamp block gave,
    ["Invalid Date"] included; the run does not end in an exception.
    Nothing is asked of the timestamp bytes. *)
Theorem scan_keeps_invalid_timestamps (content : bytes) (st : state) (idx : Z) :
  reachable content st ->
  find content magic (offset st) = idx ->
  idx <> -1 ->
  idx + 30 <= len content ->
  exists r,
    decode_record idx (window content idx) = Some r
    /\ Start_Time r = decode_timestamp (slice (window content idx) 16 22)
    /\ End_Time r = decode_timestamp (slice (window content idx) 22 28)
    /\ In r (scan content)
    /\ run content <> Raised.
Proof.
  intros Hreach Hfind Hfound Hroom.
  destruct (reachable_inv content st Hreach) as [idxs Hinv].
  destruct (loop_body_spec content st (inv_cursor _ _ _ Hinv))
    as [(_ & Hnone & _) | [(_ & _ & _ & Hshort & _) | (r & Hc & _ & Hdec & _)]];
    rewrite Hfind in *; try lia.
  exists r. pose proof (decodes_record content idx r Hdec) as Hfields.
  cbv zeta in Hfields.
  split; [apply Hdec|]. split; [now rewrite Hfields|].
  split; [now rewrite Hfields|]. split.
  - destruct (scan_extends content _ (reach_continue _ _ _ Hreach Hc))
      as [more ->].
    cbn [records]. apply in_or_app. left. apply in_or_app. right. now left.
  - destruct (run_final content) as (st_f & _ & _ & Hrun). now rewrite Hrun.
Qed.

(** A window whose timestamp bytes are all zero: month 0 and day 0. *)
Lemma scan_keeps_invalid_timestamps_witness :
  exists r,
    Start_Time r = "Invalid Date" /\ End_Time r = "Invalid Date"
    /\ timestamp_result (Start_Time r) = Invalid
    /\ In r (scan blank_window).
Proof.
  destruct (scan_keeps_invalid_timestamps blank_window initial 0)
    as (r & Hdec & Hs & He & Hin & _);
    [constructor | reflexivity | discriminate | discriminate |].
  exists r. rewrite Hs, He.
  split; [reflexivity|]. split; [reflexivity|]. split; [reflexivity | exact Hin].
Defined.

(** C9: on any 30 bytes the decoding succeeds: the six values are the
    big-endian unsigned 16-bit integers of bytes 4..15,
    [256 * w[4+2i] + w[5+2i]], the spacer is the one of bytes 28..29,
    and all are below 65536. Every record the scanner returns is decoded
    this way from a 30-byte window. *)
Theorem decode_record_total :
  (forall (idx : Z) (w : bytes),
      List.length w = 30%nat ->
      exists r,
        decode_record idx w = Some r
        /\ values_of r =
           map (fun i => 256 * byte_int (nth (4 + 2 * i) w x00)
                         + byte_int (nth (5 + 2 * i) w x00)) (seq 0 6)
        /\ List.length (values_of r) = 6%nat
        /\ Forall (fun v => 0 <= v < 65536) (values_of r)
        /\ spacer_of r =
           Some (256 * byte_int (nth 28 w x00) + byte_int (nth 29 w x00))
        /\ 0 <= 256 * byte_int (nth 28 w x00) + byte_int (nth 29 w x00) < 65536)
  /\ (forall (content : bytes) (r : record),
         In r (scan content) ->
         exists idx,
           List.length (window content idx) = 30%nat
           /\ decode_record idx (window content idx) = Some r).
Proof.
  split.
  - intros idx w Hw. eexists. split; [now apply decode_record_window|].
    cbn [values_of Val1 Val2 Val3 Val4 Pressure_Raw Duration_min
         spacer_of Spacer].
    assert (forall i, 0 <= be16 w i < 65536) as Hrange.
    { intros i. unfold be16.
      pose proof (byte_int_range (nth i w x00)).
      pose proof (byte_int_range (nth (S i) w x00)). lia. }
    split; [reflexivity|]. split; [reflexivity|]. split.
    + repeat constructor; apply Hrange.
    + split; [|apply (Hrange 28%nat)].
      apply hex_int_format_X. apply Hrange.
  - intros content r Hr.
    destruct (scan_result content) as (idxs & Hdec & _).
    destruct (Forall2_In_r _ _ _ _ Hdec Hr) as (m & _ & Hm & Hroom & Hd).
    exists m. split; [|assumption].
    apply window_length; [apply Hm | assumption].
Qed.

(** The sample window decodes to the sample record. *)
Lemma decode_record_total_witness :
  List.length sample_window = 30%nat
  /\ decode_record 0 sample_window = Some sample_record
  /\ values_of sample_record = [1; 2; 3; 4; 5; 256]
  /\ spacer_of sample_record = Some 43981.
Proof.
  split; [reflexivity|].
  destruct (proj1 decode_record_total 0 sample_window eq_refl)
    as (r & Hdec & Hvals & _ & _ & Hsp & _).
  assert (r = sample_record) as ->
    by (vm_compute in Hdec; injection Hdec as <-; reflexivity).
  split; [exact Hdec|]. split; [exact Hvals | exact Hsp].
Defined.

(** *** Back-to-back windows *)

Lemma sorted_same_elements (l1 l2 : list Z) :
  StronglySorted Z.lt l1 -> StronglySorted Z.lt l2 ->
  (forall x, In x l1 <-> In x l2) -> l1 = l2.
Proof.
  intros H1. revert l2.
  induction H1 as [|a l1 Hs1 IH Ha]; intros l2 H2 Hsame.
  - destruct l2 as [|b l2]; [reflexivity|].
    exfalso. apply (proj2 (Hsame b)). now left.
  - destruct H2 as [|b l2 Hs2 Hb].
    + exfalso. apply (proj1 (Hsame a)). now left.
    + rewrite Forall_forall in Ha, Hb.
      assert (a = b) as <-.
      { destruct (proj1 (Hsame a) (or_introl eq_refl)) as [-> | Hin];
          [reflexivity|].
        destruct (proj2 (Hsame b) (or_introl eq_refl)) as [<- | Hin'];
          [reflexivity|].
        specialize (Ha _ Hin'). specialize (Hb _ Hin). lia. }
      f_equal. apply IH; [assumption|].
      intros x. split; intros Hx.
      * destruct (proj1 (Hsame x) (or_intror Hx)) as [<- | Hin];
          [|assumption].
        specialize (Ha _ Hx). lia.
      * destruct (proj2 (Hsame x) (or_intror Hx)) as [<- | Hin];
          [|assumption].
        specialize (Hb _ Hx). lia.
Qed.

Lemma sorted_multiples (a n : nat) :
  StronglySorted Z.lt (map (fun i => 30 * Z.of_nat i) (seq a n)).
Proof.
  revert a. induction n as [|n IH]; intros a; cbn [map seq]; constructor.
  - apply IH.
  - apply Forall_forall. intros x Hx. apply in_map_iff in Hx.
    destruct Hx as (i & <- & Hi). apply in_seq in Hi. lia.
Qed.

Lemma concat_windows_length (ws : list bytes) :
  Forall (fun w => List.length w = 30%nat /\ firstn 4 w = magic) ws ->
  len (List.concat ws) = 30 * Z.of_nat (List.length ws).
Proof.
  unfold len. induction 1 as [|w ws [Hw _] _ IH]; simpl; [reflexivity|].
  rewrite length_app. lia.
Qed.

Lemma concat_windows_marker (ws : list bytes) (j : nat) :
  Forall (fun w => List.length w = 30%nat /\ firstn 4 w = magic) ws ->
  (j < List.length ws)%nat ->
  marker_at (List.concat ws) (30 * Z.of_nat j).
Proof.
  intros Hws. revert j. induction Hws as [|w ws [Hw Hm] _ IH]; intros j Hj.
  - simpl in Hj. lia.
  - split; [lia|]. destruct j as [|j].
    + change (Z.to_nat (30 * Z.of_nat 0)) with 0%nat.
      cbn [skipn List.concat]. rewrite firstn_app, Hw, Hm.
      change (4 - 30)%nat with 0%nat. cbn [firstn]. apply app_nil_r.
    + cbn [List.concat].
      replace (Z.to_nat (30 * Z.of_nat (S j)))
        with (List.length w + Z.to_nat (30 * Z.of_nat j))%nat by lia.
      rewrite skipn_app, skipn_all2 by lia.
      replace (List.length w + Z.to_nat (30 * Z.of_nat j) - List.length w)%nat
        with (Z.to_nat (30 * Z.of_nat j)) by lia.
      cbn [skipn app]. apply IH. cbn [List.length] in Hj. lia.
Qed.

(** C1: on [k] windows of 30 bytes laid end to end, each starting with
    the marker, and with no marker occurrence anywhere else, the scan
    returns [k] records whose offsets are 0, 30, ..., 30 (k - 1) in this
    order. *)
Theorem scan_back_to_back (ws : list bytes) :
  Forall (fun w => List.length w = 30%nat /\ firstn 4 w = magic) ws ->
  (forall i, marker_at (List.concat ws) i -> i mod 30 = 0) ->
  map offset_of (scan (List.concat ws)) =
    map (fun i => Some (30 * Z.of_nat i)) (seq 0 (List.length ws))
  /\ List.length (scan (List.concat ws)) = List.length ws.
Proof.
  intros Hws Hstray.
  destruct (scan_result (List.concat ws)) as (idxs & Hdec & Hsorted & Hcov).
  pose proof (concat_windows_length ws Hws) as Hlen.
  assert (idxs = map (fun i => 30 * Z.of_nat i) (seq 0 (List.length ws)))
    as Hidxs.
  { apply sorted_same_elements;
      [assumption | apply sorted_multiples |].
    intros x. rewrite in_map_iff. split.
    - intros Hx.
      destruct (Forall2_In_l _ _ _ _ Hdec Hx) as (r & _ & Hm & Hroom & _).
      pose proof (Hstray x Hm) as Hmod. destruct Hm as [Hx0 _].
      exists (Z.to_nat (x / 30)). split.
      + rewrite Z2Nat.id by (apply Z.div_pos; lia).
        Z.div_mod_to_equations. lia.
      + apply in_seq. Z.div_mod_to_equations. lia.
    - intros (j & <- & Hj). apply in_seq in Hj.
      pose proof (concat_windows_marker ws j Hws ltac:(lia)) as Hm.
      destruct (Hcov _ Hm ltac:(lia)) as [Hin | Hin]; [assumption|].
      exfalso.
      destruct (Forall2_In_l _ _ _ _ Hdec Hin) as (r & _ & Hm' & _).
      pose proof (Hstray _ Hm') as Hmod.
      Z.div_mod_to_equations. lia. }
  assert (map offset_of (scan (List.concat ws)) =
          map (fun i => Some (30 * Z.of_nat i)) (seq 0 (List.length ws)))
    as Hoffsets.
  { rewrite (Forall2_decodes_offsets (List.concat ws) idxs _ Hdec), Hidxs.
    now rewrite map_map. }
  split; [assumption|].
  apply (f_equal (@List.length _)) in Hoffsets.
  now rewrite !length_map, length_seq in Hoffsets.
Qed.

(** Three copies of the sample window: offsets 0, 30, 60. *)
Lemma scan_back_to_back_witness :
  let ws := [sample_window; sample_window; sample_window] in
  map offset_of (scan (List.concat ws)) = [Some 0; Some 30; Some 60]
  /\ List.length (scan (List.concat ws)) = 3%nat.
Proof.
  intros ws. apply (scan_back_to_back ws).
  - repeat constructor.
  - intros i Hi. apply marker_at_starts_with in Hi. destruct Hi as [Hi Hs].
    destruct (Z_lt_le_dec i 90) as [Hlt | Hge].
    + assert (exists n, i = Z.of_nat n /\ (n < 90)%nat) as (n & -> & Hn)
        by (exists (Z.to_nat i); lia).
      rewrite Nat2Z.id in Hs. clear Hi Hlt.
      do 90 (destruct n as [|n];
             [first [reflexivity | discriminate Hs]|]).
      lia.
    + rewrite skipn_all2 in Hs by (simpl; lia). discriminate Hs.
Defined.

(** *** Markers 4 bytes apart *)

(** Of two marker occurrences 4 bytes apart with full windows, the
    second is always matched; the first is matched unless the scanner
    matched a marker 3 bytes before it. *)
Lemma scan_marker_pair (content : bytes) (i : Z) :
  marker_at content i -> marker_at content (i + 4) ->
  i + 4 + 30 <= len content ->
  (exists r2, decodes content (i + 4) r2 /\ In r2 (scan content))
  /\ ((exists r1, decodes content i r1 /\ In r1 (scan content))
      \/ (exists r0, decodes content (i - 3) r0 /\ In r0 (scan content))).
Proof.
  intros Hi Hi4 Hroom.
  destruct (scan_result content) as (idxs & Hdec & _ & Hcov).
  assert (forall m, In m idxs ->
                    exists r, decodes content m r /\ In r (scan content))
    as Hrec.
  { intros m Hm. destruct (Forall2_In_l _ _ _ _ Hdec Hm) as (r & Hr & Hd).
    now exists r. }
  split.
  - destruct (Hcov (i + 4) Hi4 Hroom) as [Hin | Hin]; [now apply Hrec|].
    exfalso. destruct (Hrec _ Hin) as (r & (Hm & _) & _).
    destruct (marker_at_not_next content i (i + 4 - 3) Hi Hm). lia.
  - destruct (Hcov i Hi ltac:(lia)) as [Hin | Hin];
      [left | right]; now apply Hrec.
Qed.

(** C4, as amended: after a window is matched at [idx] the cursor is
    [idx + 4]; and of two marker occurrences 4 bytes apart, each with 30
    bytes from its start to the end of the buffer, the scan returns the
    records of both, whose byte ranges overlap, provided the scan has no
    record 3 bytes before the first (where a matched marker would hide
    it). *)
Theorem scan_overlapping_windows :
  (forall (content : bytes) (st : state) (idx : Z),
      reachable content st ->
      find content magic (offset st) = idx ->
      idx <> -1 -> idx + 30 <= len content ->
      exists r,
        loop_body content st =
        Continue {| offset := idx + 4;
                    records := (records st ++ [r])%list |})
  /\ (forall (content : bytes) (i : Z),
         marker_at content i -> marker_at content (i + 4) ->
         i + 4 + 30 <= len content ->
         ~ In (Some (i - 3)) (map offset_of (scan content)) ->
         exists r1 r2,
           In r1 (scan content) /\ In r2 (scan content)
           /\ offset_of r1 = Some i /\ offset_of r2 = Some (i + 4)
           /\ decode_record i (window content i) = Some r1
           /\ decode_record (i + 4) (window content (i + 4)) = Some r2).
Proof.
  split.
  - intros content st idx Hreach Hfind Hfound Hroom.
    destruct (reachable_inv content st Hreach) as [idxs Hinv].
    destruct (loop_body_spec content st (inv_cursor _ _ _ Hinv))
      as [(_ & Hnone & _) | [(_ & _ & _ & Hshort & _) | (r & Hc & _)]];
      rewrite Hfind in *; try lia.
    now exists r.
  - intros content i Hi Hi4 Hroom Hskip.
    destruct (scan_marker_pair content i Hi Hi4 Hroom)
      as [(r2 & Hd2 & Hin2) [(r1 & Hd1 & Hin1) | (r0 & Hd0 & Hin0)]].
    + exists r1, r2.
      split; [assumption|]. split; [assumption|].
      split; [now apply (decodes_offset_of content)|].
      split; [now apply (decodes_offset_of content)|].
      split; [apply Hd1 | apply Hd2].
    + exfalso. apply Hskip.
      rewrite <- (decodes_offset_of content _ _ Hd0). now apply in_map.
Qed.

(** Two markers 4 bytes apart at the start of a buffer of 38 bytes. *)
Lemma scan_overlapping_windows_witness :
  let content := (magic ++ magic ++ repeat x00 30)%list in
  marker_at content 0 /\ marker_at content 4
  /\ map offset_of (scan content) = [Some 0; Some 4].
Proof.
  intros content.
  assert (marker_at content 0) as H0 by (split; [lia | reflexivity]).
  assert (marker_at content 4) as H4 by (split; [lia | reflexivity]).
  split; [exact H0|]. split; [exact H4|].
  destruct (proj2 scan_overlapping_windows content 0 H0 H4)
    as (r1 & r2 & _); [discriminate | vm_compute; intuition discriminate |].
  reflexivity.
Defined.

(** C4 as stated fails when the first of the two markers starts on the
    last byte of a matched marker: with markers at 0, 3 and 7 the scan
    moves from 0 to 4 and returns the records at 0 and 7, none at 3. *)
Lemma scan_skips_chained_marker :
  ~ (forall (content : bytes) (i : Z),
        marker_at content i -> marker_at content (i + 4) ->
        i + 4 + 30 <= len content ->
        exists r1 r2,
          In r1 (scan content) /\ In r2 (scan content)
          /\ offset_of r1 = Some i /\ offset_of r2 = Some (i + 4)).
Proof.
  intros H.
  destruct (H chained_markers 3) as (r1 & r2 & Hin1 & _ & Hoff1 & _).
  - split; [lia | reflexivity].
  - split; [lia | reflexivity].
  - discriminate.
  - apply (in_map offset_of) in Hin1. rewrite Hoff1 in Hin1.
    vm_compute in Hin1. intuition discriminate.
Qed.

End ScannerProperties.

(* ================================================================= *)
(** ** More on the scanner *)

Section ScannerMore.

(** *** A buffer and its extensions *)

Lemma marker_at_app (content more : bytes) (i : Z) :
  i + 4 <= len content ->
  marker_at (content ++ more)%list i <-> marker_at content i.
Proof.
  intros Hi. unfold marker_at.
  assert (0 <= i ->
          firstn 4 (skipn (Z.to_nat i) (content ++ more)%list)
          = firstn 4 (skipn (Z.to_nat i) content)) as H.
  { intros H0. unfold len in Hi.
    rewrite skipn_app, firstn_app, length_skipn.
    replace (4 - (List.length content - Z.to_nat i))%nat with 0%nat by lia.
    cbn [firstn]. apply app_nil_r. }
  split; intros [H0 Hm]; (split; [assumption|]);
    [rewrite <- H | rewrite H]; assumption.
Qed.

Lemma window_app (content more : bytes) (idx : Z) :
  0 <= idx -> idx + 30 <= len content ->
  window (content ++ more)%list idx = window content idx.
Proof.
  intros H0 Hroom. unfold window.
  rewrite !slice_inside
    by (unfold len in *; rewrite ?length_app; lia).
  unfold len in Hroom.
  rewrite skipn_app, firstn_app, length_skipn.
  replace (Z.to_nat (idx + 30 - idx) - (List.length content - Z.to_nat idx))%nat
    with 0%nat by lia.
  cbn [firstn]. apply app_nil_r.
Qed.

(** A pass that appends a record does the same on every extension of
    the buffer. *)
Lemma loop_body_app (content more : bytes) (st st' : state) :
  0 <= offset st ->
  loop_body content st = Continue st' ->
  loop_body (content ++ more)%list st = Continue st'.
Proof.
  intros Hoff Hstep.
  destruct (loop_body_spec content st Hoff)
    as [(Hb & _) | [(Hb & _) | (r & Hc & Hle & Hdec & Hno)]];
    try congruence.
  rewrite Hc in Hstep. injection Hstep as <-.
  set (idx := find content magic (offset st)) in *.
  destruct Hdec as (Hm & Hroom & Hdec).
  pose proof (proj1 Hm) as Hidx.
  assert (find (content ++ more)%list magic (offset st) = idx) as Hfind.
  { apply find_magic_first; [lia | | ].
    - apply marker_at_app; [lia | assumption].
    - intros j Hj Hmj. apply (Hno j Hj).
      apply (marker_at_app content more); [lia | assumption]. }
  unfold loop_body. rewrite Hfind.
  replace (idx =? -1) with false by (symmetry; apply Z.eqb_neq; lia).
  replace (idx + 30 >? len (content ++ more)%list) with false.
  2:{ symmetry. rewrite Z.gtb_ltb. apply Z.ltb_ge.
      unfold len in *. rewrite length_app. lia. }
  fold (window (content ++ more)%list idx).
  now rewrite window_app, Hdec by lia.
Qed.

Lemma reachable_app (content more : bytes) (st : state) :
  reachable content st -> reachable (content ++ more)%list st.
Proof.
  induction 1 as [|st st' Hreach IH Hstep]; [constructor|].
  apply (reach_continue _ st); [assumption|].
  destruct (reachable_inv content st Hreach) as [idxs Hinv].
  apply loop_body_app; [apply (inv_cursor _ _ _ Hinv) | assumption].
Qed.

(** *** Offsets 4 bytes apart *)

Lemma spaced_snoc (l : list Z) (x : Z) :
  spaced l -> (forall m, In m l -> m + 4 <= x) -> spaced (l ++ [x]).
Proof.
  unfold spaced. induction 1 as [|a l Hl IH Ha]; intros Hx; simpl.
  - constructor; constructor.
  - constructor.
    + apply IH. intros m Hm. apply Hx. now right.
    + apply Forall_app. split; [assumption|].
      constructor; [|constructor]. apply Hx. now left.
Qed.

Lemma reachable_spaced (content : bytes) (st : state) :
  reachable content st ->
  exists idxs,
    Forall2 (decodes content) idxs (records st)
    /\ spaced idxs
    /\ (forall m, In m idxs -> m + 4 <= offset st)
    /\ 0 <= offset st.
Proof.
  induction 1 as [|st st' Hreach (idxs & Hdec & Hsp & Hbehind & Hoff) Hstep].
  - exists []. split; [constructor|]. split; [constructor|].
    split; [contradiction | simpl; lia].
  - destruct (loop_body_spec content st Hoff)
      as [(Hb & _) | [(Hb & _) | (r & Hc & Hle & Hd & _)]];
      try congruence.
    rewrite Hc in Hstep. injection Hstep as <-.
    exists (idxs ++ [find content magic (offset st)])%list.
    cbn [offset records]. split; [|split; [|split]].
    + apply Forall2_app; [assumption|]. constructor; [assumption | constructor].
    + apply spaced_snoc; [assumption|].
      intros m Hm. specialize (Hbehind m Hm). lia.
    + intros m Hm. apply in_app_or in Hm. destruct Hm as [Hm | [<- | []]].
      * specialize (Hbehind m Hm). lia.
      * lia.
    + lia.
Qed.

Lemma spaced_span (l : list Z) (lo hi : Z) :
  spaced l -> (forall m, In m l -> lo <= m <= hi) -> l <> [] ->
  lo + 4 * (len l - 1) <= hi.
Proof.
  unfold spaced, len. intros Hsp. revert lo.
  induction Hsp as [|a l Hl IH Ha]; intros lo Hin Hne; [congruence|].
  destruct l as [|b l].
  - simpl. specialize (Hin a (or_introl eq_refl)). lia.
  - assert (a + 4 + 4 * (Z.of_nat (List.length (b :: l)) - 1) <= hi) as H.
    { apply IH; [|discriminate].
      intros m Hm. split.
      - rewrite Forall_forall in Ha. now apply Ha.
      - apply Hin. now right. }
    specialize (Hin a (or_introl eq_refl)).
    change (List.length (a :: b :: l)) with (S (List.length (b :: l))).
    lia.
Qed.

(** *** The time fields of a record *)

Lemma decode_timestamp_cases (b0 b1 b2 b3 b4 b5 : byte) :
  decode_timestamp [b0; b1; b2; b3; b4; b5] = "Invalid Date"
  \/ formatted_time (decode_timestamp [b0; b1; b2; b3; b4; b5]).
Proof.
  rewrite decode_timestamp_six.
  destruct (byte_int b0 <? 100) eqn:Hy; [|now left].
  destruct (valid_components _ _ _ _ _ _) eqn:Hv; [|now left].
  right. exists b0, b1, b2, b3, b4, b5.
  split; [reflexivity|]. split; [now apply Z.ltb_lt | assumption].
Qed.

Lemma decodes_time_fields (content : bytes) (idx : Z) (r : record) :
  decodes content idx r ->
  (Start_Time r = "Invalid Date" \/ formatted_time (Start_Time r))
  /\ (End_Time r = "Invalid Date" \/ formatted_time (End_Time r)).
Proof.
  intros Hdec. pose proof (decodes_record content idx r Hdec) as Hr.
  cbv zeta in Hr.
  destruct Hdec as (Hm & Hroom & _).
  pose proof (window_length content idx (proj1 Hm) Hroom) as Hw.
  set (w := window content idx) in *. clearbody w.
  do 30 (destruct w as [|? w]; [discriminate Hw|]).
  destruct w; [|discriminate Hw].
  rewrite Hr. cbn [Start_Time End_Time].
  split; apply decode_timestamp_cases.
Qed.

Lemma formatted_time_strptime (s : string) :
  formatted_time s ->
  String.eqb s "Invalid Date" = false
  /\ String.length s = 19%nat
  /\ exists dt, strptime s ts_format = Some dt
                /\ 2000 <= year dt <= 2099
                /\ 1 <= month dt <= 12 /\ 1 <= day dt <= 31.
Proof.
  intros (b0 & b1 & b2 & b3 & b4 & b5 & -> & Hy & Hv).
  split; [apply ts_string_not_invalid|]. split.
  - unfold ts_string.
    assert (forall b, byte_int b < 100 -> String.length (two_digits b) = 2%nat)
      as H2 by apply two_digits_length.
    pose proof Hv as Hv'. unfold valid_components in Hv'.
    pose proof (days_of_month_le_31 (2000 + byte_int b0) (byte_int b1)).
    bool_to_Z.
    cbn [String.length].
    repeat (rewrite string_length_app || cbn [String.length]).
    rewrite !H2 by lia. reflexivity.
  - rewrite strptime_ts_string, Hv.
    replace (byte_int b0 <? 100) with true by (symmetry; now apply Z.ltb_lt).
    eexists. split; [reflexivity|]. cbn [year month day].
    pose proof (byte_int_range b0).
    pose proof (days_of_month_le_31 (2000 + byte_int b0) (byte_int b1)).
    unfold valid_components in Hv. bool_to_Z. lia.
Qed.

End ScannerMore.

(** X1. Every marker occurrence that has 30 bytes from its start to the
    end of the buffer is in the result with the record of its window,
    unless the result has the record of a marker 3 bytes before it. *)
Theorem scan_finds_markers (content : bytes) (j : Z) :
  marker_at content j -> j + 30 <= len content ->
  exists r,
    In r (scan content)
    /\ ((offset_of r = Some j
         /\ decode_record j (window content j) = Some r)
        \/ (offset_of r = Some (j - 3) /\ marker_at content (j - 3))).
Proof.
  intros Hj Hroom.
  destruct (scan_result content) as (idxs & Hdec & _ & Hcov).
  destruct (Hcov j Hj Hroom) as [Hin | Hin];
    destruct (Forall2_In_l _ _ _ _ Hdec Hin) as (r & Hr & Hd);
    exists r; (split; [assumption|]); [left | right];
    (split; [now apply (decodes_offset_of content) | apply Hd]).
Qed.

(** The marker at 3 of [chained_markers] is covered by the record at 0,
    the one at 7 by its own. *)
Lemma scan_finds_markers_witness :
  marker_at chained_markers 7 /\ 7 + 30 <= len chained_markers
  /\ exists r, In r (scan chained_markers) /\ offset_of r = Some 7.
Proof.
  assert (marker_at chained_markers 7) as Hm by (split; [lia | reflexivity]).
  split; [exact Hm|]. split; [discriminate|].
  destruct (scan_finds_markers chained_markers 7 Hm) as (r & Hin & H);
    [discriminate|].
  exists r. split; [exact Hin|].
  destruct H as [[H _] | [H _]]; [exact H|].
  exfalso. apply (in_map offset_of) in Hin. rewrite H in Hin.
  vm_compute in Hin. intuition discriminate.
Defined.

(** X2. Bytes added at the end of a buffer leave the records found so
    far as they are: the result on the longer buffer starts with the
    result on the shorter one. *)
Theorem scan_app (content more : bytes) :
  exists rs, scan (content ++ more)%list = (scan content ++ rs)%list.
Proof.
  destruct (run_final content) as (st_f & Hreach & _ & Hrun).
  unfold scan at 2. rewrite Hrun.
  apply scan_extends. now apply reachable_app.
Qed.

(** X3. The offsets of the records are at least 4 bytes apart and each
    leaves room for a window, so [n] records need a buffer of at least
    [4 * n + 26] bytes. *)
Theorem scan_record_count (content : bytes) :
  scan content = [] \/ 4 * len (scan content) + 26 <= len content.
Proof.
  destruct (run_final content) as (st_f & Hreach & _ & Hrun).
  destruct (reachable_spaced content st_f Hreach) as (idxs & Hdec & Hsp & _).
  unfold scan. rewrite Hrun.
  destruct (records st_f) as [|r rs] eqn:Hrec; [now left | right].
  rewrite <- Hrec in *.
  assert (len (records st_f) = len idxs) as ->
    by (unfold len; now rewrite (Forall2_length Hdec)).
  assert (idxs <> []) as Hne.
  { intros ->. inversion Hdec as [Hnil|]. congruence. }
  pose proof (spaced_span idxs 0 (len content - 30) Hsp) as H.
  assert (forall m, In m idxs -> 0 <= m <= len content - 30) as Hin.
  { intros m Hm. destruct (Forall2_In_l _ _ _ _ Hdec Hm) as (r' & _ & Hd).
    destruct Hd as ((H0 & _) & Hroom & _). lia. }
  specialize (H Hin Hne). lia.
Qed.

(** X4. Each time field of a record returned is the text [Invalid Date]
    or a string of 19 characters that [strptime] reads with the format
    of the parser, as a date in the years 2000 to 2099. *)
Theorem scan_time_fields (content : bytes) (r : record) :
  In r (scan content) ->
  Forall (fun s =>
            s = "Invalid Date"
            \/ (String.length s = 19%nat
                /\ exists dt, strptime s ts_format = Some dt
                              /\ 2000 <= year dt <= 2099))
         [Start_Time r; End_Time r].
Proof.
  intros Hin.
  destruct (scan_result content) as (idxs & Hdec & _).
  destruct (Forall2_In_r _ _ _ _ Hdec Hin) as (idx & _ & Hd).
  destruct (decodes_time_fields content idx r Hd) as [Hs He].
  assert (forall s, s = "Invalid Date" \/ formatted_time s ->
                    s = "Invalid Date"
                    \/ (String.length s = 19%nat
                        /\ exists dt, strptime s ts_format = Some dt
                                      /\ 2000 <= year dt <= 2099)) as H.
  { intros s [-> | Hf]; [now left | right].
    destruct (formatted_time_strptime s Hf) as (_ & Hl & dt & Hdt & Hy & _).
    split; [assumption|]. now exists dt. }
  constructor; [now apply H|]. constructor; [now apply H | constructor].
Qed.

(** The record of [sample_window]: a start time that is read back, an
    end time on 30 February. *)
Lemma scan_time_fields_witness :
  In sample_record (scan sample_window)
  /\ Start_Time sample_record = "2024-01-15 08:30:00"
  /\ End_Time sample_record = "Invalid Date"
  /\ exists dt, strptime (Start_Time sample_record) ts_format = Some dt
                /\ 2000 <= year dt <= 2099.
Proof.
  assert (In sample_record (scan sample_window)) as Hin
    by (vm_compute; left; reflexivity).
  split; [exact Hin|]. split; [reflexivity|]. split; [reflexivity|].
  pose proof (scan_time_fields sample_window sample_record Hin) as H.
  inversion H as [|s l [Hs | [_ Hs]] _]; [discriminate Hs | exact Hs].
Defined.

(* ================================================================= *)
(** ** Floating-point facts the analysis rests on *)

Section FloatFacts.

Lemma all_from_spec (count : nat) (n : Z) (p : Z -> bool) :
  all_from count n p = true ->
  forall k, n <= k < n + Z.of_nat count -> p k = true.
Proof.
  revert n. induction count as [|count IH]; intros n H k Hk; [lia|].
  cbn [all_from] in H. apply andb_true_iff in H. destruct H as [Hn H].
  destruct (Z.eq_dec k n) as [-> | Hne]; [assumption|].
  apply (IH (n + 1) H). lia.
Qed.

Lemma uint16_float_check_all :
  all_from (Z.to_nat 65536) 0 uint16_float_check = true.
Proof. vm_compute. reflexivity. Qed.

(** Every 16-bit value has a float, on which the two duration tests of
    the analysis agree with the integer. *)
Lemma uint16_float (n : Z) :
  0 <= n < 65536 ->
  exists x, float_of_int n = Ok x
            /\ (0.5 <? x / 60)%float = (30 <? n)
            /\ (30 <? x)%float = (30 <? n).
Proof.
  intros Hn.
  pose proof (all_from_spec _ _ _ uint16_float_check_all n ltac:(lia)) as H.
  unfold uint16_float_check in H.
  destruct (float_of_int n) as [x|]; [|discriminate H].
  apply andb_true_iff in H. destruct H as [H1 H2].
  exists x. split; [reflexivity|].
  split; now apply Bool.eqb_prop.
Qed.

(** A float above 0.5 is not zero. *)
Lemma above_half_not_zero (h : float) :
  (0.5 <? h)%float = true -> (h =? 0)%float = false.
Proof.
  rewrite ltb_spec, FloatAxioms.eqb_spec.
  replace (Prim2SF 0) with (S754_zero false) by reflexivity.
  replace (Prim2SF 0.5) with (S754_finite false 4503599627370496 (-53))
    by reflexivity.
  destruct (Prim2SF h) as [s|s| |s m e]; cbn; try discriminate;
    intros _; now destruct s.
Qed.

Lemma truediv_above_half (x h : float) :
  (0.5 <? h)%float = true -> truediv x h = Ok (x / h)%float.
Proof.
  intros H. unfold truediv. now rewrite (above_half_not_zero h H).
Qed.

Lemma truediv_60 (x : float) : truediv x 60 = Ok (x / 60)%float.
Proof. reflexivity. Qed.

Lemma truediv_100 (x : float) : truediv x 100 = Ok (x / 100)%float.
Proof. reflexivity. Qed.

Lemma truediv_1000 (x : float) : truediv x 1000 = Ok (x / 1000)%float.
Proof. reflexivity. Qed.

End FloatFacts.

(* ================================================================= *)
(** ** The analysis *)

Section Analysis.

Lemma be16_range (w : bytes) (i : nat) : 0 <= be16 w i < 65536.
Proof.
  unfold be16.
  pose proof (byte_int_range (nth i w x00)).
  pose proof (byte_int_range (nth (S i) w x00)). lia.
Qed.

(** The six numbers of a record of the parser are 16-bit values. *)
Lemma decodes_values_range (content : bytes) (idx : Z) (r : record) :
  decodes content idx r ->
  Forall (fun v => 0 <= v < 65536) (values_of r).
Proof.
  intros Hdec. rewrite (decodes_record content idx r Hdec). cbv zeta.
  unfold values_of.
  cbn [Val1 Val2 Val3 Val4 Pressure_Raw Duration_min].
  repeat constructor; apply be16_range.
Qed.

Lemma make_item_strptime_None (r : record) :
  strptime (Start_Time r) ts_format = None ->
  make_item r = Exn ValueError.
Proof. intros H. unfold make_item. now rewrite H. Qed.

Lemma float_of_int_exn (n : Z) (e : exn) :
  float_of_int n = Exn e -> e = OverflowError.
Proof. unfold float_of_int. destruct (is_infinity _); congruence. Qed.

(** Neither [ValueError] without a failed [strptime] nor
    [ZeroDivisionError] comes out of the dictionary display. *)
Lemma make_item_exn (r : record) (e : exn) :
  make_item r = Exn e ->
  (e = ValueError /\ strptime (Start_Time r) ts_format = None)
  \/ e = OverflowError.
Proof.
  unfold make_item.
  destruct (strptime _ _); [|intros [= <-]; now left].
  repeat match goal with
         | |- context [float_of_int ?n] =>
             let E := fresh "E" in
             destruct (float_of_int n) eqn:E;
             [cbv beta iota; rewrite ?truediv_1000
             |apply float_of_int_exn in E; intros [= <-]; now right]
         end.
  discriminate.
Qed.

(** On a record of the parser that has a start time, the display gives
    an item: the start time is read back and the numbers have floats. *)
Lemma make_item_decodes (content : bytes) (idx : Z) (r : record) :
  decodes content idx r -> has_start r = true ->
  exists d, item_of r d.
Proof.
  intros Hdec Hstart.
  destruct (decodes_time_fields content idx r Hdec) as [[Hs | Hs] _].
  { unfold has_start in Hstart. rewrite Hs in Hstart. discriminate Hstart. }
  destruct (formatted_time_strptime _ Hs) as (_ & _ & dt & Hdt & _).
  pose proof (decodes_values_range content idx r Hdec) as Hv.
  unfold values_of in Hv.
  repeat match goal with
         | H : Forall _ (_ :: _) |- _ =>
             let H1 := fresh "Hr" in
             apply Forall_cons_iff in H; destruct H as [H1 H]
         end.
  destruct (uint16_float _ Hr) as (v1 & E1 & _).
  destruct (uint16_float _ Hr0) as (v2 & E2 & _).
  destruct (uint16_float _ Hr1) as (v3 & E3 & _).
  destruct (uint16_float _ Hr2) as (p & Ep & _).
  destruct (uint16_float _ Hr3) as (v4 & E4 & _).
  destruct (uint16_float _ Hr4) as (x & Ex & Hx1 & Hx2).
  unfold item_of, make_item.
  rewrite Hdt, Ex, Ep, truediv_1000, E1, E2, E3, E4.
  eexists. split; [reflexivity|]. cbn [Item.Duration].
  repeat split; assumption.
Qed.

(** What the conversion loop does with one more record. *)
Lemma convert_app (rs1 rs2 : list record) (data : list Item.item) :
  convert (rs1 ++ rs2) data =
  (d <-- convert rs1 data ;; convert rs2 d).
Proof.
  revert data. induction rs1 as [|r rs1 IH]; intros data; cbn [convert app].
  - reflexivity.
  - destruct (String.eqb _ _); [apply IH|].
    destruct (make_item r) as [it | []]; try apply IH; reflexivity.
Qed.

Lemma convert_never (rs : list record) (data : list Item.item) :
  convert rs data <> Exn ValueError
  /\ convert rs data <> Exn ZeroDivisionError.
Proof.
  revert data. induction rs as [|r rs IH]; intros data; cbn [convert].
  - split; discriminate.
  - destruct (String.eqb _ _); [apply IH|].
    destruct (make_item r) as [it | e] eqn:E; [apply IH|].
    destruct (make_item_exn r e E) as [[-> _] | ->];
      [apply IH | split; discriminate].
Qed.

(** The derived metrics never fail. *)
Lemma ahi_vals_total (data : list Item.item) (acc : list float) :
  exists vs, ahi_vals data acc = Ok (acc ++ vs)%list.
Proof.
  revert acc. induction data as [|d data IH]; intros acc; cbn [ahi_vals].
  - exists []. now rewrite app_nil_r.
  - rewrite truediv_60.
    destruct (0.5 <? Item.Duration d / 60)%float eqn:E.
    + rewrite (truediv_above_half _ _ E).
      destruct (IH (acc ++ [Item.Val3 d / (Item.Duration d / 60)]%float)%list)
        as [vs ->].
      eexists. now rewrite <- app_assoc.
    + apply IH.
Qed.

Lemma leak_vals_total (data : list Item.item) :
  exists vs, leak_vals data = Ok vs.
Proof.
  induction data as [|d data [vs IH]]; cbn [leak_vals].
  - now exists [].
  - rewrite truediv_100, IH.
    destruct (30 <? Item.Duration d)%float; eexists; reflexivity.
Qed.

Lemma run_analysis_convert (rs : list record) :
  run_analysis rs = convert rs [].
Proof.
  unfold run_analysis. destruct (convert rs []) as [data|]; [|reflexivity].
  destruct (ahi_vals_total data []) as [vs ->].
  now destruct (leak_vals_total data) as [vs' ->].
Qed.

(** The loop on records of the parser: the items of the records that
    have a start time, in their order. *)
Lemma convert_decoded (content : bytes) (idxs : list Z) (rs : list record)
      (data : list Item.item) :
  Forall2 (decodes content) idxs rs ->
  exists items,
    convert rs data = Ok (data ++ items)%list
    /\ Forall2 item_of (filter has_start rs) items.
Proof.
  intros Hdec. revert data.
  induction Hdec as [|idx r idxs rs Hd _ IH]; intros data;
    cbn [convert filter].
  - exists []. split; [now rewrite app_nil_r | constructor].
  - unfold has_start at 1.
    destruct (String.eqb (Start_Time r) "Invalid Date") eqn:E; cbn [negb].
    + apply IH.
    + destruct (make_item_decodes content idx r Hd) as (d & Hd').
      { unfold has_start. now rewrite E. }
      rewrite (proj1 Hd').
      destruct (IH (data ++ [d])%list) as (items & -> & Hitems).
      exists (d :: items). split; [now rewrite <- app_assoc|].
      now constructor.
Qed.

(** The analysis of what the parser returns. *)
Lemma run_analysis_decoded (content : bytes) :
  exists data,
    run_analysis (scan content) = Ok data
    /\ Forall2 item_of (filter has_start (scan content)) data.
Proof.
  destruct (scan_result content) as (idxs & Hdec & _).
  destruct (convert_decoded content idxs _ [] Hdec) as (items & Hc & Hitems).
  exists items. now rewrite run_analysis_convert, Hc.
Qed.




End Analysis.
(** X5. On the records of any buffer the analysis ends without an
    exception, and its list holds, in the order of the file, one item
    for each record whose start time is not [Invalid Date]: no such
    record is lost to the [except ValueError] clause, and the end time
    plays no part. *)
Theorem run_analysis_scan (content : bytes) :
  exists data,
    run_analysis (scan content) = Ok data
    /\ Forall2 (fun r d => make_item r = Ok d)
               (filter has_start (scan content)) data
    /\ List.length data = List.length (filter has_start (scan content)).
Proof.
  destruct (run_analysis_decoded content) as (data & Hrun & Hitems).
  exists data. split; [assumption|]. split.
  - eapply Forall2_impl; [|eassumption]. intros r d H. apply H.
  - symmetry. apply (Forall2_length Hitems).
Qed.

(** X6. A record whose start time [strptime] does not read, the text
    [Invalid Date] or any other, is left out without an error: the
    analysis gives what it gives without that record. *)
Theorem run_analysis_skips (rs1 rs2 : list record) (r : record) :
  strptime (Start_Time r) ts_format = None ->
  run_analysis (rs1 ++ r :: rs2) = run_analysis (rs1 ++ rs2).
Proof.
  intros H. rewrite !run_analysis_convert, !convert_app.
  destruct (convert rs1 []) as [data|]; [|reflexivity].
  cbn [convert]. rewrite (make_item_strptime_None r H).
  now destruct (String.eqb _ _).
Qed.

(** A record dated 30 February between two copies of the sample. *)
Lemma run_analysis_skips_witness :
  let r := {| Offset := "0x1E"; Start_Time := "2024-02-30 08:30:00";
              End_Time := "2024-02-30 09:30:00"; Duration_min := 60;
              Pressure_Raw := 4000; Val1 := 1; Val2 := 2; Val3 := 3;
              Val4 := 4; Spacer := "0x0000" |} in
  strptime (Start_Time r) ts_format = None
  /\ run_analysis ([sample_record] ++ r :: [sample_record])
     = run_analysis ([sample_record] ++ [sample_record]).
Proof.
  intros r. split; [reflexivity|].
  apply (run_analysis_skips [sample_record] [sample_record] r).
  reflexivity.
Defined.


(* ================================================================= *)
(** ** The report *)

Section Report.

(** *** The order of start times *)

Lemma tuple_lt_cotrans (x z : list Z) :
  tuple_lt x z = true ->
  forall y, tuple_lt x y = true \/ tuple_lt y z = true.
Proof.
  revert z. induction x as [|u x IH]; intros [|v z] H [|w y];
    cbn [tuple_lt] in *; auto; try discriminate.
  destruct (Z.eqb_spec u v) as [-> | Huv].
  - destruct (Z.eqb_spec v w) as [-> | Hvw].
    + rewrite Z.eqb_refl. now apply IH.
    + destruct (Z.eqb_spec w v) as [-> | _]; [congruence|].
      destruct (Z.ltb_spec v w); [now left | right].
      apply Z.ltb_lt. lia.
  - apply Z.ltb_lt in H.
    destruct (Z.eqb_spec u w) as [-> | Huw].
    + right. destruct (Z.eqb_spec w v); [congruence | now apply Z.ltb_lt].
    + destruct (Z.ltb_spec u w); [now left | right].
      destruct (Z.eqb_spec w v); [lia | apply Z.ltb_lt; lia].
Qed.

Lemma tuple_lt_asym (x y : list Z) :
  tuple_lt x y = true -> tuple_lt y x = false.
Proof.
  revert y. induction x as [|u x IH]; intros [|v y] H;
    cbn [tuple_lt] in *; auto; try discriminate.
  destruct (Z.eqb_spec u v) as [-> | Huv].
  - rewrite Z.eqb_refl. now apply IH.
  - destruct (Z.eqb_spec v u); [congruence|].
    apply Z.ltb_lt in H. apply Z.ltb_ge. lia.
Qed.

Lemma datetime_lt_cotrans (a c : datetime) :
  datetime_lt a c = true ->
  forall b, datetime_lt a b = true \/ datetime_lt b c = true.
Proof. intros H b. now apply tuple_lt_cotrans. Qed.

Lemma datetime_lt_asym (a b : datetime) :
  datetime_lt a b = true -> datetime_lt b a = false.
Proof. apply tuple_lt_asym. Qed.

Lemma not_after_trans (a b c : Item.item) :
  not_after a b -> not_after b c -> not_after a c.
Proof.
  unfold not_after. intros Hab Hbc.
  destruct (datetime_lt (Item.Start_Time c) (Item.Start_Time a)) eqn:E;
    [|reflexivity].
  destruct (datetime_lt_cotrans _ _ E (Item.Start_Time b)); congruence.
Qed.

(** *** The sort *)

Lemma insert_by_start_perm (x : Item.item) (l : list Item.item) :
  Permutation (x :: l) (insert_by_start x l).
Proof.
  induction l as [|y l IH]; cbn [insert_by_start]; [reflexivity|].
  destruct (datetime_lt _ _); [|reflexivity].
  rewrite perm_swap. now constructor.
Qed.

Lemma sort_by_start_perm (data : list Item.item) :
  Permutation data (sort_by_start data).
Proof.
  induction data as [|x data IH]; cbn [sort_by_start]; [constructor|].
  rewrite <- insert_by_start_perm. now constructor.
Qed.

Lemma insert_by_start_sorted (x : Item.item) (l : list Item.item) :
  StronglySorted not_after l ->
  StronglySorted not_after (insert_by_start x l).
Proof.
  induction 1 as [|y l Hl IH Hy]; cbn [insert_by_start].
  - constructor; constructor.
  - destruct (datetime_lt (Item.Start_Time y) (Item.Start_Time x)) eqn:E.
    + constructor; [assumption|].
      rewrite <- insert_by_start_perm. constructor; [|assumption].
      now apply datetime_lt_asym.
    + constructor; [now constructor|].
      constructor; [assumption|].
      eapply Forall_impl; [|eassumption].
      intros z Hz. now apply (not_after_trans x y z).
Qed.

Lemma sort_by_start_sorted (data : list Item.item) :
  StronglySorted not_after (sort_by_start data).
Proof.
  induction data as [|x data IH]; cbn [sort_by_start]; [constructor|].
  now apply insert_by_start_sorted.
Qed.

(** Items that start at the same time keep their order. *)
Lemma insert_by_start_stable (k : datetime) (x : Item.item)
      (l : list Item.item) :
  filter (starts_at k) (insert_by_start x l) = filter (starts_at k) (x :: l).
Proof.
  induction l as [|y l IH]; cbn [insert_by_start]; [reflexivity|].
  destruct (datetime_lt (Item.Start_Time y) (Item.Start_Time x)) eqn:E;
    [|reflexivity].
  cbn [filter] in *. rewrite IH.
  destruct (starts_at k y) eqn:Hy, (starts_at k x) eqn:Hx; try reflexivity.
  exfalso. unfold starts_at in Hx, Hy.
  apply andb_true_iff in Hx, Hy. destruct Hx as [Hx _], Hy as [_ Hy].
  apply negb_true_iff in Hx, Hy.
  destruct (datetime_lt_cotrans _ _ E k); congruence.
Qed.

Lemma sort_by_start_stable (k : datetime) (data : list Item.item) :
  filter (starts_at k) (sort_by_start data) = filter (starts_at k) data.
Proof.
  induction data as [|x data IH]; cbn [sort_by_start]; [reflexivity|].
  rewrite insert_by_start_stable. cbn [filter]. now rewrite IH.
Qed.

(** *** The lists of the page *)

Lemma ahi_series_total (data : list Item.item) :
  ahi_series data = Ok (map ahi_bar data).
Proof.
  induction data as [|d data IH]; cbn [ahi_series map]; [reflexivity|].
  rewrite truediv_60, IH. unfold ahi_bar.
  destruct (0.5 <? Item.Duration d / 60)%float eqn:E; [|reflexivity].
  now rewrite (truediv_above_half _ _ E).
Qed.

Lemma leak_series_total (data : list Item.item) :
  leak_series data = Ok (map (fun d => Item.Val2 d / 100)%float data).
Proof.
  induction data as [|d data IH]; cbn [leak_series map]; [reflexivity|].
  now rewrite truediv_100, IH.
Qed.

Lemma generate_html_report_total (data : list Item.item) :
  generate_html_report data =
  let sorted := sort_by_start data in
  Ok {| dates := map (fun d => strftime_date (Item.Start_Time d)) sorted;
        durations := map Item.Duration sorted;
        pressures := map Item.Pressure sorted;
        ahi := map ahi_bar sorted;
        leak := map (fun d => Item.Val2 d / 100)%float sorted |}.
Proof.
  unfold generate_html_report.
  now rewrite ahi_series_total, leak_series_total.
Qed.

(** *** Labels *)

Lemma make_item_start (r : record) (d : Item.item) :
  make_item r = Ok d ->
  strptime (Start_Time r) ts_format = Some (Item.Start_Time d).
Proof.
  unfold make_item.
  destruct (strptime _ _) as [dt|]; [|discriminate].
  repeat match goal with
         | |- context [float_of_int ?n] =>
             destruct (float_of_int n);
             [cbv beta iota; rewrite ?truediv_1000 | discriminate]
         end.
  now intros [= <-].
Qed.

Lemma two_digits_two (b : byte) :
  byte_int b < 100 ->
  exists c1 c2, two_digits b = String c1 (String c2 "").
Proof.
  destruct b; cbn; intros H;
    first [do 2 eexists; reflexivity | discriminate H].
Qed.

Lemma str_year (b : byte) :
  byte_int b < 100 ->
  str (2000 + byte_int b) = String "2" (String "0" (two_digits b)).
Proof. destruct b; cbn; intros H; first [reflexivity | discriminate H]. Qed.

(** The date of a time the parser formatted is its first 10 characters. *)
Lemma formatted_time_date (s : string) (dt : datetime) :
  formatted_time s -> strptime s ts_format = Some dt ->
  strftime_date dt = substring 0 10 s.
Proof.
  intros (b0 & b1 & b2 & b3 & b4 & b5 & -> & Hy & Hv).
  rewrite strptime_ts_string, Hv.
  replace (byte_int b0 <? 100) with true by (symmetry; now apply Z.ltb_lt).
  cbn [andb]. intros Hdt.
  assert (dt = {| year := 2000 + byte_int b0; month := byte_int b1;
                  day := byte_int b2; hour := byte_int b3;
                  minute := byte_int b4; second := byte_int b5 |}) as ->
    by congruence.
  unfold strftime_date. cbn [year month day].
  pose proof (days_of_month_le_31 (2000 + byte_int b0) (byte_int b1)).
  unfold valid_components in Hv. bool_to_Z.
  rewrite (str_year b0 Hy). unfold ts_string.
  fold (two_digits b1). fold (two_digits b2).
  destruct (two_digits_two b0 Hy) as (c1 & c2 & ->).
  destruct (two_digits_two b1 ltac:(lia)) as (c3 & c4 & ->).
  destruct (two_digits_two b2 ltac:(lia)) as (c5 & c6 & ->).
  reflexivity.
Qed.



End Report.

(** X8. The report never fails, whatever the items: its five lists have
    one entry for each item, taken in the order of the start times, the
    items that start at the same time in the order they came in; the AHI
    entry is the quotient for a session of more than half an hour and
    the [int] 0 otherwise, so no division by zero takes place. *)
Theorem report_chronological (data : list Item.item) :
  exists page sorted,
    generate_html_report data = Ok page
    /\ Permutation data sorted
    /\ StronglySorted not_after sorted
    /\ (forall k, filter (starts_at k) sorted = filter (starts_at k) data)
    /\ dates page = map (fun d => strftime_date (Item.Start_Time d)) sorted
    /\ durations page = map Item.Duration sorted
    /\ pressures page = map Item.Pressure sorted
    /\ ahi page = map ahi_bar sorted
    /\ leak page = map (fun d => Item.Val2 d / 100)%float sorted.
Proof.
  eexists. exists (sort_by_start data).
  split; [apply generate_html_report_total|].
  split; [apply sort_by_start_perm|].
  split; [apply sort_by_start_sorted|].
  split; [intros k; apply sort_by_start_stable|].
  cbn. repeat split; reflexivity.
Qed.

(** X9. For a record of the parser that the analysis keeps, the label
    of the charts is the date part of the record's start time, its
    first 10 characters. *)
Theorem report_labels (content : bytes) (r : record) (d : Item.item) :
  In r (scan content) -> make_item r = Ok d ->
  strftime_date (Item.Start_Time d) = substring 0 10 (Start_Time r).
Proof.
  intros Hin Hd. apply make_item_start in Hd.
  destruct (scan_result content) as (idxs & Hdec & _).
  destruct (Forall2_In_r _ _ _ _ Hdec Hin) as (idx & _ & Hr).
  destruct (decodes_time_fields content idx r Hr) as [[Hs | Hs] _].
  - rewrite Hs in Hd. discriminate Hd.
  - now apply formatted_time_date.
Qed.

(** The sample record is labelled 2024-01-15. *)
Lemma report_labels_witness :
  In sample_record (scan sample_window)
  /\ exists d, make_item sample_record = Ok d
               /\ strftime_date (Item.Start_Time d) = "2024-01-15".
Proof.
  assert (In sample_record (scan sample_window)) as Hin
    by (vm_compute; left; reflexivity).
  split; [exact Hin|].
  destruct (make_item sample_record) as [d|e] eqn:E;
    [|vm_compute in E; discriminate E].
  exists d. split; [reflexivity|].
  rewrite (report_labels sample_window sample_record d Hin E). reflexivity.
Defined.


(* ================================================================= *)
(** ** The CSV copy *)

Section CsvCopy.

Lemma has_special_app (a b : string) :
  Csv.has_special (a ++ b) = Csv.has_special a || Csv.has_special b.
Proof.
  induction a as [|c a IH]; cbn [append Csv.has_special]; [reflexivity|].
  now rewrite IH, orb_assoc.
Qed.

Lemma has_special_decimal (d : Decimal.uint) :
  Csv.has_special (decimal d) = false.
Proof. induction d; cbn [decimal Csv.has_special]; now rewrite ?IHd. Qed.

Lemma has_special_upper_hex (d : Hexadecimal.uint) :
  Csv.has_special (upper_hex d) = false.
Proof. induction d; cbn [upper_hex Csv.has_special]; now rewrite ?IHd. Qed.

Lemma has_special_zeros (k : nat) : Csv.has_special (zeros k) = false.
Proof. induction k; cbn [zeros Csv.has_special]; now rewrite ?IHk. Qed.

Lemma has_special_zero_pad (width : nat) (negative : bool) (digits : string) :
  Csv.has_special digits = false ->
  Csv.has_special (zero_pad width negative digits) = false.
Proof.
  intros H. unfold zero_pad.
  rewrite !has_special_app, has_special_zeros, H.
  now destruct negative.
Qed.

Lemma has_special_format_d (width : nat) (n : Z) :
  Csv.has_special (format_d width n) = false.
Proof. apply has_special_zero_pad, has_special_decimal. Qed.

Lemma has_special_format_X (width : nat) (n : Z) :
  Csv.has_special ("0x" ++ format_X width n) = false.
Proof.
  cbn [append Csv.has_special]. unfold format_X.
  now rewrite (has_special_zero_pad _ _ _ (has_special_upper_hex _)).
Qed.

Lemma has_special_formatted_time (s : string) :
  s = "Invalid Date" \/ formatted_time s -> Csv.has_special s = false.
Proof.
  intros [-> | (b0 & b1 & b2 & b3 & b4 & b5 & -> & _)]; [reflexivity|].
  unfold ts_string, two_digits.
  repeat (rewrite has_special_app || cbn [Csv.has_special]
          || rewrite has_special_format_d).
  reflexivity.
Qed.

(** No value of a record of the parser holds a comma, a quote or a line
    break. *)
Lemma decodes_fields_plain (content : bytes) (idx : Z) (r : record) :
  decodes content idx r ->
  Forall (fun f => Csv.has_special f = false) (_dict_to_list r).
Proof.
  intros Hdec.
  destruct (decodes_time_fields content idx r Hdec) as [Hs He].
  apply has_special_formatted_time in Hs, He.
  pose proof (decodes_record content idx r Hdec) as Hr. cbv zeta in Hr.
  assert (Offset r = "0x" ++ format_X 0 idx) as Ho by now rewrite Hr.
  assert (Spacer r = "0x" ++ format_X 4 (be16 (window content idx) 28))
    as Hsp by now rewrite Hr.
  unfold _dict_to_list, str. rewrite Ho, Hsp.
  repeat constructor;
    first [assumption | apply has_special_format_d | apply has_special_format_X].
Qed.

Lemma map_field_plain (fields : list string) :
  Forall (fun f => Csv.has_special f = false) fields ->
  map Csv.field fields = fields.
Proof.
  induction 1 as [|f fields Hf _ IH]; cbn [map]; [reflexivity|].
  unfold Csv.field at 1. now rewrite Hf, IH.
Qed.

Lemma writerow_plain (f g : string) (fields : list string) :
  Forall (fun f => Csv.has_special f = false) (f :: g :: fields) ->
  Csv.writerow (f :: g :: fields) = plain_line (f :: g :: fields).
Proof.
  intros H. unfold plain_line. rewrite <- (map_field_plain _ H) at 2.
  now destruct f.
Qed.

(** *** Reading a line back *)

Lemma split_not_nil (sep : ascii) (s : string) : split sep s <> [].
Proof.
  induction s as [|c s IH]; cbn [split]; [discriminate|].
  destruct (Ascii.eqb c sep); [discriminate|].
  now destruct (split sep s).
Qed.

Lemma split_plain (f rest : string) :
  Csv.has_special f = false ->
  split "," (f ++ rest) =
  match split "," rest with
  | w :: ws => (f ++ w) :: ws
  | [] => [f]
  end.
Proof.
  induction f as [|c f IH]; cbn [append Csv.has_special]; intros H.
  - pose proof (split_not_nil "," rest).
    now destruct (split "," rest).
  - apply orb_false_iff in H. destruct H as [Hc Hf].
    cbn [split]. unfold Csv.special, Csv.delimiter in Hc.
    destruct (Ascii.eqb c ","); [discriminate Hc|].
    rewrite (IH Hf). pose proof (split_not_nil "," rest).
    now destruct (split "," rest).
Qed.

Lemma split_concat (fields : list string) :
  fields <> [] ->
  Forall (fun f => Csv.has_special f = false) fields ->
  split "," (String.concat "," fields) = fields.
Proof.
  intros Hne H. induction H as [|f fields Hf Hfs IH]; [congruence|].
  destruct fields as [|g fields].
  - cbn [String.concat]. rewrite <- (string_app_nil_r f) at 1.
    rewrite (split_plain f "" Hf). cbn [split].
    now rewrite string_app_nil_r.
  - change (String.concat "," (f :: g :: fields))
      with (f ++ String "," (String.concat "," (g :: fields))).
    rewrite (split_plain f _ Hf). cbn [split Ascii.eqb Bool.eqb].
    rewrite IH by discriminate. now rewrite string_app_nil_r.
Qed.

Lemma scan_rows_plain (content : bytes) :
  Forall (fun r => Csv.writerow (_dict_to_list r) = plain_line (_dict_to_list r)
                   /\ split "," (String.concat "," (_dict_to_list r))
                      = _dict_to_list r)
         (scan content).
Proof.
  destruct (scan_result content) as (idxs & Hdec & _).
  apply Forall_forall. intros r Hin.
  destruct (Forall2_In_r _ _ _ _ Hdec Hin) as (idx & _ & Hr).
  pose proof (decodes_fields_plain content idx r Hr) as Hp.
  split; [now apply writerow_plain | now apply split_concat].
Qed.

End CsvCopy.

(** X11. In the CSV copy of the records of any buffer no value is
    quoted: after the header come the lines of the records, each the ten
    values joined by commas and ended by CR LF, and cutting a line at
    its commas gives the ten values back. *)
Theorem csv_text_plain (content : bytes) :
  csv_text (scan content) =
  plain_line keys
  ++ String.concat "" (map (fun r => plain_line (_dict_to_list r))
                           (scan content))
  /\ Forall (fun r => split "," (String.concat "," (_dict_to_list r))
                      = _dict_to_list r
                      /\ List.length (_dict_to_list r) = 10%nat)
            (scan content).
Proof.
  pose proof (scan_rows_plain content) as H. split.
  - unfold csv_text. f_equal. f_equal.
    induction H as [|r rs [Hr _] _ IH]; cbn [map]; [reflexivity|].
    now rewrite Hr, IH.
  - eapply Forall_impl; [|exact H]. intros r [_ Hr]. now split.
Qed.

(* ================================================================= *)
(** ** The entry point *)

Section Main.

Lemma scan_short (content : bytes) : len content < 30 -> scan content = [].
Proof.
  intros H. destruct (scan_result content) as (idxs & Hdec & _).
  destruct (scan content) as [|r rs]; [reflexivity|].
  inversion Hdec as [|idx r' idxs' rs' (Hm & Hroom & _) _]; subst.
  destruct Hm. lia.
Qed.

Lemma csv_copy_None (csv : string) (rs : list record) :
  csv_copy csv rs = None <-> csv = "" \/ rs = [].
Proof.
  unfold csv_copy. destruct csv as [|c csv], rs as [|r rs];
    split; auto; try discriminate.
  intros [H | H]; discriminate H.
Qed.

Lemma csv_copy_Some (csv : string) (rs : list record) (name text : string) :
  csv_copy csv rs = Some (name, text) -> name = csv /\ text = csv_text rs.
Proof.
  unfold csv_copy. destruct csv as [|c csv], rs as [|r rs];
    try discriminate; intros [= <- <-]; now split.
Qed.

(** [main] on the records of a buffer. *)
Lemma main_decoded (file : option bytes) (csv html : string) :
  exists data,
    Forall2 item_of (filter has_start (parse_bys_file file)) data
    /\ main file csv html =
       Ok {| csv_file := csv_copy csv (parse_bys_file file);
             html_file :=
               match data with
               | [] => None
               | _ :: _ =>
                   match generate_html_report data with
                   | Ok page => Some (html, page)
                   | Exn _ => None
                   end
               end |}
    /\ exists page, generate_html_report data = Ok page.
Proof.
  unfold main. destruct file as [content|]; cbn [parse_bys_file].
  - destruct (run_analysis_decoded content) as (data & Hrun & Hitems).
    exists data. split; [assumption|].
    rewrite (generate_html_report_total data). split; [|eexists; reflexivity].
    destruct (scan content) as [|r rs] eqn:E.
    + cbn [filter] in Hitems. now inversion Hitems.
    + rewrite Hrun. destruct data as [|d data]; [reflexivity|].
      now rewrite (generate_html_report_total (d :: data)).
  - exists []. split; [constructor|]. split; [reflexivity|].
    eexists. apply generate_html_report_total.
Qed.

End Main.

(** X12. [main] ends without an exception on any input. The CSV copy is
    written, under the name given and with the text of all records,
    unless the name is empty or there is no record; the report is
    written, under the name given, exactly when some record has a start
    time other than [Invalid Date]. *)
Theorem main_writes (file : option bytes) (csv html : string) :
  exists w,
    main file csv html = Ok w
    /\ (csv_file w = None <-> csv = "" \/ parse_bys_file file = [])
    /\ (forall name text,
           csv_file w = Some (name, text) ->
           name = csv /\ text = csv_text (parse_bys_file file))
    /\ (html_file w = None <-> filter has_start (parse_bys_file file) = [])
    /\ (forall name page, html_file w = Some (name, page) -> name = html).
Proof.
  destruct (main_decoded file csv html) as (data & Hitems & Hmain & page & Hp).
  eexists. split; [exact Hmain|]. cbn [csv_file html_file].
  split; [apply csv_copy_None|]. split; [apply csv_copy_Some|].
  rewrite Hp. split.
  - destruct data as [|d data]; inversion Hitems; subst; split;
      try reflexivity; try discriminate.
  - destruct data; [discriminate | now intros name page' [= <- _]].
Qed.

(** X13. When the input file does not exist or is shorter than 30
    bytes, [main] writes nothing, neither the CSV copy nor the report. *)
Theorem main_without_records (file : option bytes) (csv html : string) :
  match file with
  | None => True
  | Some content => len content < 30
  end ->
  main file csv html = Ok {| csv_file := None; html_file := None |}.
Proof.
  intros H.
  assert (parse_bys_file file = []) as E.
  { destruct file as [content|]; [now apply scan_short | reflexivity]. }
  unfold main. rewrite E.
  replace (csv_copy csv []) with (@None (string * string));
    [reflexivity | now destruct csv].
Qed.

(** A file of 29 bytes that starts with the marker, and no file. *)
Lemma main_without_records_witness :
  main (Some (removelast blank_window)) "summary.csv" "report.html"
  = Ok {| csv_file := None; html_file := None |}
  /\ main None "summary.csv" "report.html"
     = Ok {| csv_file := None; html_file := None |}.
Proof.
  split.
  - apply (main_without_records (Some (removelast blank_window))).
    reflexivity.
  - apply (main_without_records None). exact I.
Defined.
